(** * melobot: connection lifecycle, message pipeline and concurrency toolkit

    A shallow embedding of the parts of
    [melobot/io/forward_ws.py], [melobot/types/tools.py] and
    [melobot/types/models.py] that the specification talks about, followed
    by the properties proved about them.

    Conventions.
    - Python integers are [Z]; bit operations are the [Z] ones.
    - Time stamps and durations ([time.time()], [asyncio.sleep]) are exact
      numbers, represented by [Z] in an arbitrary but fixed unit.
    - A call that may raise returns a [pyresult].
    - Code that awaits the environment (the transport, the hook bus, the
      clock) takes the environment's answers as arguments. *)

From Stdlib Require Import ZArith List Bool Lia Sorted.
From stdpp Require Import gmap strings list.
Import ListNotations.

(* ===================================================================== *)
(** * Part I: the embedding                                               *)
(* ===================================================================== *)

(** ** Python values, exceptions and results *)

Module Py.

(** The exceptions that the embedded code raises or handles. *)
Inductive pyexc : Type :=
| TryFlagFailed
| ValueError
| AttributeError
| InvalidStateError
| BotBaseUtilsError
| BotConnectFailed
| ConnectionClosed
| CancelledError
| OtherException (name : string).

Inductive pyresult (A : Type) : Type :=
| Ok (a : A)
| Raise (e : pyexc).
Arguments Ok {A} a.
Arguments Raise {A} e.

(** The values that may be stored as a flag.  [PyVoid] is the sentinel
    [Void] of [melobot.types.typing]. *)
Inductive pyval : Type :=
| PyNone
| PyVoid
| PyBool (b : bool)
| PyInt (z : Z)
| PyStr (s : string).

(** [x is None] *)
Definition is_None (x : pyval) : bool :=
  match x with PyNone => true | _ => false end.

(** [x is Void] *)
Definition is_Void (x : pyval) : bool :=
  match x with PyVoid => true | _ => false end.

(** [x == y]; booleans compare equal to the integers 0 and 1. *)
Definition py_eq (x y : pyval) : bool :=
  match x, y with
  | PyNone, PyNone => true
  | PyVoid, PyVoid => true
  | PyBool a, PyBool b => Bool.eqb a b
  | PyBool a, PyInt z | PyInt z, PyBool a => Z.eqb (if a then 1 else 0) z
  | PyInt a, PyInt b => Z.eqb a b
  | PyStr a, PyStr b => String.eqb a b
  | _, _ => false
  end.

End Py.

(** ** [melobot/types/models.py]: class [Flagable] *)

Module Flagable.
Import Py.

(** [self._flags_store : Dict[str, Dict[str, Any]] = None] *)
Record t : Type := { _flags_store : option (gmap string (gmap string pyval)) }.

(** [Flagable.__init__] *)
Definition init : t := {| _flags_store := None |}.

(** [Flagable.mark] *)
Definition mark (self : t) (namespace flag_name : string) (val : pyval)
  : pyresult t :=
  (* if self._flags_store is None: self._flags_store = {} *)
  let store : gmap string (gmap string pyval) :=
    match _flags_store self with None => ∅ | Some s => s end in
  (* if self._flags_store.get(namespace) is None:
         self._flags_store[namespace] = {} *)
  let store :=
    match store !! namespace with
    | None => <[namespace := ∅]> store
    | Some _ => store
    end in
  let flags : gmap string pyval := default ∅ (store !! namespace) in
  (* if flag_name in self._flags_store[namespace].keys(): raise *)
  match flags !! flag_name with
  | Some _ => Raise TryFlagFailed
  | None =>
      (* self._flags_store[namespace][flag_name] = val *)
      Ok {| _flags_store := Some (<[namespace := <[flag_name := val]> flags]> store) |}
  end.

(** [Flagable.flag_check] *)
Definition flag_check (self : t) (namespace flag_name : string) (val : pyval)
  : bool :=
  match _flags_store self with
  | None => false
  | Some store =>
      match store !! namespace with
      | None => false
      | Some flags =>
          (* flags.get(flag_name, Void) *)
          let flag := default PyVoid (flags !! flag_name) in
          if is_Void flag then false
          else if is_None val then is_None flag else py_eq flag val
      end
  end.

(** [flag_check(namespace, flag_name)]: [val] takes its default, [None]. *)
Definition flag_check_default (self : t) (namespace flag_name : string) : bool :=
  flag_check self namespace flag_name PyNone.

End Flagable.

(** ** [melobot/types/tools.py]: [AsyncTwinEvent] and [get_twin_event] *)

Module TwinEvent.

(** An [AsyncTwinEvent] object: the [_value] of [asyncio.Event] and the
    reference [_twin].  Objects live in a heap and are named by their
    address, since the two events of a pair refer to each other. *)
Record AsyncTwinEvent : Type := { _value : bool; _twin : option nat }.

Abbreviation heap := (list AsyncTwinEvent).

(** [AsyncTwinEvent()]: [asyncio.Event.__init__] leaves the event unset,
    then [self._twin = None]. *)
Definition new (h : heap) : nat * heap :=
  (length h, h ++ [ {| _value := false; _twin := None |} ]).

(** [asyncio.Event.is_set] *)
Definition is_set (x : nat) (h : heap) : bool :=
  match h !! x with Some o => _value o | None => false end.

(** [asyncio.Event.set], as reached through [super()] *)
Definition Event_set (x : nat) (h : heap) : heap :=
  alter (fun o => {| _value := true; _twin := _twin o |}) x h.

(** [asyncio.Event.clear], as reached through [super()] *)
Definition Event_clear (x : nat) (h : heap) : heap :=
  alter (fun o => {| _value := false; _twin := _twin o |}) x h.

Definition twin_of (x : nat) (h : heap) : option nat :=
  match h !! x with Some o => _twin o | None => None end.

(** [AsyncTwinEvent.bind] *)
Definition bind (self twin : nat) (h : heap) : heap :=
  let h := alter (fun o => {| _value := _value o; _twin := Some twin |}) self h in
  if is_set self h then Event_clear twin h else Event_set twin h.

(** [AsyncTwinEvent.set] *)
Definition set (self : nat) (h : heap) : heap :=
  let h := Event_set self h in
  match twin_of self h with
  | Some tw => Event_clear tw h
  | None => h
  end.

(** [AsyncTwinEvent.clear] *)
Definition clear (self : nat) (h : heap) : heap :=
  let h := Event_clear self h in
  match twin_of self h with
  | Some tw => Event_set tw h
  | None => h
  end.

(** [get_twin_event] *)
Definition get_twin_event (h : heap) : nat * nat * heap :=
  let '(a, h) := new h in
  let '(b, h) := new h in
  let h := bind a b h in
  let h := bind b a h in
  (a, b, h).

(** A call made by a client that holds the pair [(a, b)]. *)
Inductive call : Type :=
| CallSet (on_first : bool)
| CallClear (on_first : bool).

Definition target (a b : nat) (on_first : bool) : nat :=
  if on_first then a else b.

Definition do_call (a b : nat) (c : call) (h : heap) : heap :=
  match c with
  | CallSet f => set (target a b f) h
  | CallClear f => clear (target a b f) h
  end.

Definition do_calls (a b : nat) (cs : list call) (h : heap) : heap :=
  fold_left (fun h c => do_call a b c h) cs h.

(** [a] and [b] are bound to each other and hold opposite values. *)
Definition twins (a b : nat) (h : heap) : Prop :=
  a <> b /\ twin_of a h = Some b /\ twin_of b h = Some a /\
  is_set b h = negb (is_set a h).

End TwinEvent.

(** ** [melobot/types/tools.py]: class [IdWorker] *)

Module IdWorker.
Import Py.
#[local] Open Scope Z_scope.

Definition MAX_WORKER_ID : Z := Z.lxor (-1) (Z.shiftl (-1) 3).
Definition MAX_DATACENTER_ID : Z := Z.lxor (-1) (Z.shiftl (-1) 5).
Definition WOKER_ID_SHIFT : Z := 12.
Definition DATACENTER_ID_SHIFT : Z := 12 + 3.
Definition TIMESTAMP_LEFT_SHIFT : Z := 12 + 3 + 5.
Definition SEQUENCE_MASK : Z := Z.lxor (-1) (Z.shiftl (-1) 12).
Definition STARTEPOCH : Z := 1064980800000.

Record t : Type := {
  worker_id : Z;
  datacenter_id : Z;
  sequence : Z;
  last_timestamp : Z
}.

(** [IdWorker.__init__] *)
Definition init (datacenter_id worker_id sequence : Z) : pyresult t :=
  if (worker_id >? MAX_WORKER_ID) || (worker_id <? 0) then Raise ValueError
  else if (datacenter_id >? MAX_DATACENTER_ID) || (datacenter_id <? 0)
  then Raise ValueError
  else Ok {| worker_id := worker_id; datacenter_id := datacenter_id;
             sequence := sequence; last_timestamp := -1 |}.

(** The integer that [get_id] assembles from its four fields. *)
Definition new_id (self : t) (timestamp : Z) : Z :=
  Z.lor
    (Z.lor
       (Z.lor (Z.shiftl (timestamp - STARTEPOCH) TIMESTAMP_LEFT_SHIFT)
              (Z.shiftl (datacenter_id self) DATACENTER_ID_SHIFT))
       (Z.shiftl (worker_id self) WOKER_ID_SHIFT))
    (sequence self).

(** The fields read back from an id. *)
Definition timestamp_of (id : Z) : Z :=
  Z.shiftr id TIMESTAMP_LEFT_SHIFT + STARTEPOCH.
Definition sequence_of (id : Z) : Z := Z.land id SEQUENCE_MASK.

Section WithClock.
(** [clock k] is the value of [int(time.time() * 1000)] at the [k]-th
    reading of the clock; a [tick] counts the readings made so far. *)
Variable clock : nat -> Z.

(** [IdWorker.__gen_timestamp] *)
Definition __gen_timestamp (tick : nat) : Z * nat := (clock tick, S tick).

(** [IdWorker.__til_next_millis]: the busy-wait, bounded by [fuel]
    readings of the clock; [None] when the fuel runs out. *)
Fixpoint __til_next_millis (fuel : nat) (last_timestamp : Z) (tick : nat)
  : option (Z * nat) :=
  match fuel with
  | O => None
  | S fuel =>
      let '(timestamp, tick) := __gen_timestamp tick in
      if timestamp <=? last_timestamp
      then __til_next_millis fuel last_timestamp tick
      else Some (timestamp, tick)
  end.

(** [IdWorker.get_id].  [None]: still spinning when the fuel ran out. *)
Definition get_id (fuel : nat) (self : t) (tick : nat)
  : option (pyresult (Z * t) * nat) :=
  let '(timestamp, tick) := __gen_timestamp tick in
  if timestamp <? last_timestamp self then Some (Raise ValueError, tick)
  else
    let chosen : option (Z * Z * nat) :=
      if timestamp =? last_timestamp self then
        let sequence := Z.land (sequence self + 1) SEQUENCE_MASK in
        if sequence =? 0 then
          match __til_next_millis fuel (last_timestamp self) tick with
          | Some (timestamp, tick) => Some (sequence, timestamp, tick)
          | None => None
          end
        else Some (sequence, timestamp, tick)
      else Some (0, timestamp, tick) in
    match chosen with
    | None => None
    | Some (sequence, timestamp, tick) =>
        let self := {| worker_id := worker_id self;
                       datacenter_id := datacenter_id self;
                       sequence := sequence;
                       last_timestamp := timestamp |} in
        Some (Ok (new_id self timestamp, self), tick)
    end.

(** [n] calls of [get_id] in a row; [None] if one of them raises or
    does not return within [fuel]. *)
Fixpoint get_ids (fuel : nat) (n : nat) (self : t) (tick : nat)
  : option (list Z * t * nat) :=
  match n with
  | O => Some ([], self, tick)
  | S n =>
      match get_id fuel self tick with
      | Some (Ok (id, self), tick) =>
          match get_ids fuel n self tick with
          | Some (ids, self, tick) => Some (id :: ids, self, tick)
          | None => None
          end
      | _ => None
      end
  end.

Definition nondecreasing : Prop :=
  forall i j : nat, (i <= j)%nat -> clock i <= clock j.

(** The clock does not stand still for ever. *)
Definition advancing : Prop :=
  forall (bound : Z) (tick : nat), exists k : nat, (tick <= k)%nat /\ bound < clock k.

End WithClock.

(** The fields of a worker that [init] accepted. *)
Definition wf (self : t) : Prop :=
  0 <= worker_id self <= 7 /\ 0 <= datacenter_id self <= 31.

(** [ID_WORKER = IdWorker(1, 1, 0)] *)
Definition ID_WORKER : pyresult t := init 1 1 0.

(** A clock that stays in one millisecond for its first 6000 readings. *)
Definition stuck_clock (k : nat) : Z :=
  if Z.of_nat k <? 6000 then 1730000000000 else 1730000000001.

(** The other two fields read back from an id. *)
Definition datacenter_of (id : Z) : Z :=
  Z.land (Z.shiftr id DATACENTER_ID_SHIFT) MAX_DATACENTER_ID.
Definition worker_of (id : Z) : Z :=
  Z.land (Z.shiftr id WOKER_ID_SHIFT) MAX_WORKER_ID.


End IdWorker.

(** ** [melobot/types/tools.py]: decorator [cooldown] *)

Module Cooldown.
Import Py.
#[local] Open Scope Z_scope.

Section Guard.
(** The type of the values the wrapped function and the callbacks
    return. *)
Variable T : Type.

(** What calling a callback gives: a coroutine, described by the
    outcome of awaiting it; something that is not a coroutine; or an
    exception raised by the call itself. *)
Inductive called : Type :=
| Coroutine (outcome : pyresult T)
| NotCoroutine
| CallRaises (e : pyexc).

(** The closure variables of [cooldown]: [alock.locked()] and
    [pre_finish_t]. *)
Record guard : Type := { locked : bool; pre_finish_t : Z }.

(** What a call of the wrapped function does, in order. *)
Inductive event : Type :=
| EvBusyCallback
| EvCdCallback (remain_t : Z)
| EvSleep (delay : Z)
| EvFunc.

Variable busy_callback : called.
Variable cd_callback : option (Z -> called).
Variable interval : Z.
(** The outcome of [await func(...)]. *)
Variable func : pyresult T.

(** [alock = aio.Lock(); pre_finish_t = time.time() - interval - 1] *)
Definition init (now : Z) : guard :=
  {| locked := false; pre_finish_t := now - interval - 1 |}.

(** [cb = callback(...); if not iscoroutine(cb): raise ...;
    return await cb] *)
Definition await_callback (c : called) : pyresult T :=
  match c with
  | CallRaises e => Raise e
  | NotCoroutine => Raise BotBaseUtilsError
  | Coroutine outcome => outcome
  end.

(** [ret = await func(...); pre_finish_t = time.time();
    return ret], where [finished] is that reading of the clock. *)
Definition run_func (finished : Z) (g : guard) : pyresult T * guard :=
  match func with
  | Ok ret => (Ok ret, {| locked := locked g; pre_finish_t := finished |})
  | Raise e => (Raise e, g)
  end.

(** [wrapped_func].  [now] is the clock read for [duration]; the lock
    taken by [async with alock] is released when the call leaves. *)
Definition wrapped_func (now finished : Z) (g : guard)
  : pyresult T * guard * list event :=
  if locked g then (await_callback busy_callback, g, [EvBusyCallback])
  else
    let duration := now - pre_finish_t g in
    if duration >? interval then
      let '(ret, g) := run_func finished g in (ret, g, [EvFunc])
    else
      let remain_t := interval - duration in
      match cd_callback with
      | Some cd_callback =>
          (await_callback (cd_callback remain_t), g, [EvCdCallback remain_t])
      | None =>
          let '(ret, g) := run_func finished g in
          (ret, g, [EvSleep remain_t; EvFunc])
      end.

End Guard.

Arguments Coroutine {T} outcome.
Arguments NotCoroutine {T}.
Arguments CallRaises {T} e.

End Cooldown.

(** ** [melobot/io/forward_ws.py]: class [ForwardWsConn] *)

Module ForwardWsConn.
Import Py.
#[local] Open Scope Z_scope.

(** The options that [__init__] stores. *)
Record config : Type := {
  max_retry : Z;
  retry_delay : Z;
  cd_time : Z;
  allow_reconnect : bool
}.

(** [ForwardWsConn.__init__]:
    [self.retry_delay = retry_delay if retry_delay > 0 else 0] *)
Definition init (max_retry retry_delay cd_time : Z) (allow_reconnect : bool)
  : config :=
  {| max_retry := max_retry;
     retry_delay := if retry_delay >? 0 then retry_delay else 0;
     cd_time := cd_time;
     allow_reconnect := allow_reconnect |}.

(** *** [_run]: the connect loop *)

(** [count(0) if self.max_retry < 0 else range(self.max_retry + 1)] *)
Inductive retry_iter : Type :=
| count (n : nat)
| range (remaining : nat).

Definition make_iter (max_retry : Z) : retry_iter :=
  if max_retry <? 0 then count 0 else range (Z.to_nat (max_retry + 1)).

(** [next(iter)]; [None] is [StopIteration]. *)
Definition next (it : retry_iter) : option retry_iter :=
  match it with
  | count n => Some (count (S n))
  | range O => None
  | range (S n) => Some (range n)
  end.

Inductive run_event : Type :=
| EvConnect                 (* await websockets.connect(self.url, ...) *)
| EvSleep (delay : Z).      (* await asyncio.sleep(self.retry_delay) *)

(** How the [for] loop of [_run] ends: with [created_flag] set, with the
    iterator exhausted, or not within [fuel] iterations. *)
Inductive loop_end : Type :=
| Created
| NotCreated
| Looping.

(** The [for] loop of [_run].  [opens k] tells whether the [k]-th call of
    [websockets.connect] succeeds; otherwise it raises an [Exception]. *)
Fixpoint _run_loop (opens : nat -> bool) (delay : Z) (fuel : nat)
         (it : retry_iter) (k : nat) : list run_event * loop_end :=
  match fuel with
  | O => ([], Looping)
  | S fuel =>
      match next it with
      | None => ([], NotCreated)
      | Some it =>
          if opens k then ([EvConnect], Created)
          else
            let '(trace, e) := _run_loop opens delay fuel it (S k) in
            (EvConnect :: EvSleep delay :: trace, e)
      end
  end.

(** [_run] up to the point where the connection is established:
    [Some (Ok tt)] when it goes on to serve the connection,
    [Some (Raise BotConnectFailed)] when it gives up, [None] while the
    loop is still running after [fuel] iterations. *)
Definition _run_connect (opens : nat -> bool) (self : config) (fuel : nat)
  : list run_event * option (pyresult unit) :=
  let '(trace, e) :=
    _run_loop opens (retry_delay self) fuel (make_iter (max_retry self)) O in
  (trace,
   match e with
   | Created => Some (Ok tt)
   | NotCreated => Some (Raise BotConnectFailed)
   | Looping => None
   end).

(** The number of connection attempts in a trace. *)
Fixpoint attempts (trace : list run_event) : nat :=
  match trace with
  | [] => O
  | EvConnect :: trace => S (attempts trace)
  | EvSleep _ :: trace => attempts trace
  end.

(** One failed attempt followed by its sleep, [n] times. *)
Fixpoint failed_attempts (delay : Z) (n : nat) : list run_event :=
  match n with
  | O => []
  | S n => EvConnect :: EvSleep delay :: failed_attempts delay n
  end.

(** *** Closing and reconnecting *)

(** What the [_run] that holds [_run_lock] is doing. *)
Inductive run_phase : Type :=
| NoRun          (* no [_run] holds the lock *)
| Connecting     (* in the [for] loop *)
| Serving.       (* at [await self._client_close] *)

(** The fields of the connector that [_run], [_close], [_reconnect] and
    [_listen] share, and counters of what has happened so far. *)
Record life : Type := {
  (** [None]: not assigned yet; [Some d]: a future with [done() = d] *)
  _client_close : option bool;
  _conn_ready : bool;
  _allow_reconn : bool;
  _reconn_flag : bool;
  phase : run_phase;
  (** calls of [to_task(self._run())] *)
  spawned : nat;
  (** of these, the ones that have taken [_run_lock] *)
  started : nat;
  (** calls of [_reconnect] *)
  reconnects : nat;
  (** calls of [websockets.connect] *)
  connects : nat;
  (** executions of the [finally] block of [_run] *)
  teardowns : nat
}.

Definition with_client_close (v : option bool) (s : life) : life :=
  {| _client_close := v; _conn_ready := _conn_ready s;
     _allow_reconn := _allow_reconn s; _reconn_flag := _reconn_flag s;
     phase := phase s; spawned := spawned s; started := started s;
     reconnects := reconnects s; connects := connects s;
     teardowns := teardowns s |}.

Definition with_conn_ready (v : bool) (s : life) : life :=
  {| _client_close := _client_close s; _conn_ready := v;
     _allow_reconn := _allow_reconn s; _reconn_flag := _reconn_flag s;
     phase := phase s; spawned := spawned s; started := started s;
     reconnects := reconnects s; connects := connects s;
     teardowns := teardowns s |}.

Definition with_allow_reconn (v : bool) (s : life) : life :=
  {| _client_close := _client_close s; _conn_ready := _conn_ready s;
     _allow_reconn := v; _reconn_flag := _reconn_flag s;
     phase := phase s; spawned := spawned s; started := started s;
     reconnects := reconnects s; connects := connects s;
     teardowns := teardowns s |}.

Definition with_reconn_flag (v : bool) (s : life) : life :=
  {| _client_close := _client_close s; _conn_ready := _conn_ready s;
     _allow_reconn := _allow_reconn s; _reconn_flag := v;
     phase := phase s; spawned := spawned s; started := started s;
     reconnects := reconnects s; connects := connects s;
     teardowns := teardowns s |}.

Definition with_phase (v : run_phase) (s : life) : life :=
  {| _client_close := _client_close s; _conn_ready := _conn_ready s;
     _allow_reconn := _allow_reconn s; _reconn_flag := _reconn_flag s;
     phase := v; spawned := spawned s; started := started s;
     reconnects := reconnects s; connects := connects s;
     teardowns := teardowns s |}.

(** [to_task(self._run())] *)
Definition spawn_run (s : life) : life :=
  {| _client_close := _client_close s; _conn_ready := _conn_ready s;
     _allow_reconn := _allow_reconn s; _reconn_flag := _reconn_flag s;
     phase := phase s; spawned := S (spawned s); started := started s;
     reconnects := reconnects s; connects := connects s;
     teardowns := teardowns s |}.

Definition count_start (s : life) : life :=
  {| _client_close := _client_close s; _conn_ready := _conn_ready s;
     _allow_reconn := _allow_reconn s; _reconn_flag := _reconn_flag s;
     phase := phase s; spawned := spawned s; started := S (started s);
     reconnects := reconnects s; connects := connects s;
     teardowns := teardowns s |}.

Definition count_reconnect (s : life) : life :=
  {| _client_close := _client_close s; _conn_ready := _conn_ready s;
     _allow_reconn := _allow_reconn s; _reconn_flag := _reconn_flag s;
     phase := phase s; spawned := spawned s; started := started s;
     reconnects := S (reconnects s); connects := connects s;
     teardowns := teardowns s |}.

Definition count_connect (s : life) : life :=
  {| _client_close := _client_close s; _conn_ready := _conn_ready s;
     _allow_reconn := _allow_reconn s; _reconn_flag := _reconn_flag s;
     phase := phase s; spawned := spawned s; started := started s;
     reconnects := reconnects s; connects := S (connects s);
     teardowns := teardowns s |}.

Definition count_teardown (s : life) : life :=
  {| _client_close := _client_close s; _conn_ready := _conn_ready s;
     _allow_reconn := _allow_reconn s; _reconn_flag := _reconn_flag s;
     phase := phase s; spawned := spawned s; started := started s;
     reconnects := reconnects s; connects := connects s;
     teardowns := S (teardowns s) |}.

(** The state that [__init__] leaves. *)
Definition new_life (self : config) : life :=
  {| _client_close := None; _conn_ready := false;
     _allow_reconn := allow_reconnect self; _reconn_flag := false;
     phase := NoRun; spawned := O; started := O;
     reconnects := O; connects := O; teardowns := O |}.

(** A method leaves a state and, when it raises, an exception. *)
Definition returned : Type := life * option pyexc.

(** [ForwardWsConn._close] *)
Definition _close (s : life) : returned :=
  match _client_close s with
  | None => (s, Some AttributeError)
  | Some true => (s, None)
  | Some false =>
      (* self._allow_reconn = False; self._client_close.set_result(True) *)
      (with_client_close (Some true) (with_allow_reconn false s), None)
  end.

(** [ForwardWsConn._reconnect] *)
Definition _reconnect (s : life) : returned :=
  let s := count_reconnect s in
  let s := with_conn_ready false s in
  match _client_close s with
  | None => (s, Some AttributeError)
  | Some true => (s, Some InvalidStateError)
  | Some false =>
      let s := with_client_close (Some true) s in
      let s := with_reconn_flag true s in
      (spawn_run s, None)
  end.

(** The [finally] block of [ForwardWsConn._listen] *)
Definition _listen_finally (s : life) : returned :=
  match _client_close s with
  | None => (s, Some AttributeError)
  | Some true => (s, None)
  | Some false =>
      if negb (_allow_reconn s) then _close s else _reconnect s
  end.

(** [ForwardWsConn.__aenter__] *)
Definition __aenter__ (s : life) : life := spawn_run s.

(** [_run] takes [_run_lock]: [self._client_close = asyncio.Future()] *)
Definition run_starts (s : life) : life :=
  match phase s with
  | NoRun =>
      if (started s <? spawned s)%nat
      then with_phase Connecting (with_client_close (Some false) (count_start s))
      else s
  | _ => s
  end.

(** One iteration of the [for] loop of [_run]; on success
    [self._conn_ready.set()] and [_run] waits for [_client_close]. *)
Definition run_attempts (ok : bool) (s : life) : life :=
  match phase s with
  | Connecting =>
      let s := count_connect s in
      if ok then with_phase Serving (with_conn_ready true s) else s
  | _ => s
  end.

(** [raise BotConnectFailed(...)] *)
Definition run_gives_up (s : life) : life :=
  match phase s with
  | Connecting => with_phase NoRun s
  | _ => s
  end.

(** [await self._client_close] returns and the [finally] block closes
    the connection. *)
Definition run_finishes (s : life) : life :=
  match phase s, _client_close s with
  | Serving, Some true => with_phase NoRun (count_teardown s)
  | _, _ => s
  end.

(** What can happen to a connector once it has been entered. *)
Inductive happening : Type :=
| Close                      (* [_close()], from [__aexit__] or [alive] *)
| ListenEnds                 (* the [finally] block of [_listen] runs *)
| RunStarts
| RunAttempts (ok : bool)
| RunGivesUp
| RunFinishes.

Definition step (s : life) (h : happening) : life :=
  match h with
  | Close => fst (_close s)
  | ListenEnds => fst (_listen_finally s)
  | RunStarts => run_starts s
  | RunAttempts ok => run_attempts ok s
  | RunGivesUp => run_gives_up s
  | RunFinishes => run_finishes s
  end.

Definition steps (s : life) (hs : list happening) : life :=
  fold_left step hs s.


(** *** Submitting and sending actions *)

Record BotAction : Type := { action_id : nat; flatten : string }.

(** What [_send_queue_watch] does in one turn of its loop, with the
    readings of the clock. *)
Inductive send_event : Type :=
| Dequeued (action : BotAction) (t : Z)
    (* [_send_queue.get()] and [_conn_ready.wait()] returned *)
| PresendDone (action : BotAction) (t : Z)
    (* [emit(BotLife.ACTION_PRESEND, action, wait=True)] returned *)
| CooledDown (wait_time : Z) (t : Z)
    (* [asyncio.sleep(wait_time)] returned *)
| Sent (action : BotAction) (t_start t_done : Z)
    (* [conn.send(action_str)] was called at [t_start], returned at [t_done] *)
| SendFailed (action : BotAction) (t : Z).
    (* [conn.send] raised [ConnectionClosed] *)

Record sender : Type := {
  _send_queue : list BotAction;
  _pre_send_time : Z;
  slack : bool;
  (** [_send_queue_watch] is still in its loop *)
  watching : bool;
  (** the clock, [time.time()] *)
  now : Z;
  log : list send_event
}.

(** [__init__] at time [t0], with the watch task started. *)
Definition new_sender (t0 : Z) : sender :=
  {| _send_queue := []; _pre_send_time := t0; slack := false;
     watching := true; now := t0; log := [] |}.

(** [ForwardWsConn._send], called while the connector is ready. *)
Definition _send (action : BotAction) (s : sender) : sender :=
  if slack s then s
  else {| _send_queue := _send_queue s ++ [action];
          _pre_send_time := _pre_send_time s; slack := slack s;
          watching := watching s; now := now s; log := log s |}.

Definition set_slack (b : bool) (s : sender) : sender :=
  {| _send_queue := _send_queue s; _pre_send_time := _pre_send_time s;
     slack := b; watching := watching s; now := now s; log := log s |}.

(** How long the environment takes in one turn of the loop: until an
    action is there and the connection is ready, in the pre-send hooks,
    in [asyncio.sleep] beyond the time asked for, and in [conn.send];
    and whether [conn.send] succeeds. *)
Record pace : Type := {
  idle : Z;
  hook_time : Z;
  oversleep : Z;
  send_time : Z;
  send_ok : bool
}.

Definition pace_ok (p : pace) : Prop :=
  0 <= idle p /\ 0 <= hook_time p /\ 0 <= oversleep p /\ 0 <= send_time p.

(** One turn of the [while True] loop of [_send_queue_watch]. *)
Definition _send_queue_watch_turn (cd_time : Z) (p : pace) (s : sender) : sender :=
  if watching s then
    match _send_queue s with
    | [] => s
    | action :: rest =>
        let t_got := now s + idle p in
        let t_hooked := t_got + hook_time p in
        let wait_time := cd_time - (t_hooked - _pre_send_time s) in
        let t_start := t_hooked + Z.max 0 wait_time + oversleep p in
        let t_done := t_start + send_time p in
        let log := log s ++ [Dequeued action t_got; PresendDone action t_hooked;
                             CooledDown wait_time t_start] in
        if send_ok p then
          {| _send_queue := rest; _pre_send_time := t_done; slack := slack s;
             watching := true; now := t_done;
             log := log ++ [Sent action t_start t_done] |}
        else
          {| _send_queue := rest; _pre_send_time := _pre_send_time s;
             slack := slack s; watching := false; now := t_done;
             log := log ++ [SendFailed action t_done] |}
    end
  else s.

(** What happens to the outbound pipeline of a ready connector. *)
Inductive move : Type :=
| Submit (action : BotAction)
| SetSlack (b : bool)
| Watch (p : pace).

Definition play (cd_time : Z) (s : sender) (m : move) : sender :=
  match m with
  | Submit action => _send action s
  | SetSlack b => set_slack b s
  | Watch p => _send_queue_watch_turn cd_time p s
  end.

Definition plays (cd_time : Z) (s : sender) (ms : list move) : sender :=
  fold_left (play cd_time) ms s.

Definition move_ok (m : move) : Prop :=
  match m with Watch p => pace_ok p | _ => True end.

(** The actions submitted while not in slack mode, in order. *)
Fixpoint submitted (slack : bool) (ms : list move) : list BotAction :=
  match ms with
  | [] => []
  | Submit action :: ms =>
      if slack then submitted slack ms else action :: submitted slack ms
  | SetSlack b :: ms => submitted b ms
  | Watch _ :: ms => submitted slack ms
  end.

(** The transmissions on the wire: action, start and end. *)
Definition transmission (ev : send_event) : option (BotAction * Z * Z) :=
  match ev with
  | Sent action t_start t_done => Some (action, t_start, t_done)
  | _ => None
  end.

Definition transmissions (s : sender) : list (BotAction * Z * Z) :=
  omap transmission (log s).

Definition sent_actions (s : sender) : list BotAction :=
  map (fun x => x.1.1) (transmissions s).

(** Each transmission starts at least [gap] after the previous one ended. *)
Fixpoint spaced (gap : Z) (l : list (BotAction * Z * Z)) : Prop :=
  match l with
  | x :: rest =>
      x.1.2 <= x.2 /\
      match rest with
      | y :: _ => gap <= y.1.2 - x.2 /\ gap <= y.1.2 - x.1.2
      | [] => True
      end /\
      spaced gap rest
  | [] => True
  end.


(** The transmissions so far are spaced by [cd_time], and
    [_pre_send_time] is the end of the last one. *)
Definition paced (cd_time : Z) (s : sender) : Prop :=
  spaced cd_time (transmissions s) /\
  forall x, last (transmissions s) = Some x -> _pre_send_time s = x.2.

(** *** Receiving events *)

(** A [BotEvent]: its raw text and what reading its abstract property
    [type] gives. *)
Record BotEvent : Type := { event_raw : string; event_type : pyresult string }.

(** [BotEvent.is_resp_event]: [self.type == "response"] *)
Definition is_resp_event (event : BotEvent) : pyresult bool :=
  match event_type event with
  | Ok ty => Ok (String.eqb ty "response")
  | Raise e => Raise e
  end.

(** What [await self.conn.recv()] gives: a text unit, or
    [ConnectionClosed]; or the task is cancelled while it waits. *)
Inductive received : Type :=
| Text (raw_event : string)
| RecvClosed
| RecvCancelled.

(** The tasks created with [to_task]. *)
Inductive task : Type :=
| Respond (event : BotEvent)      (* self._resp_dispatcher.respond(event) *)
| Dispatch (event : BotEvent).    (* self._common_dispatcher.dispatch(event) *)

(** The records that [_listen] writes to the logger. *)
Inductive log_record : Type :=
| DebugReceived (raw_event : string)
| ErrorRaised
| ErrorRawEvent (raw_event : string)
| ErrorTraceback (e : pyexc)
| ErrorLocals (raw_event : string) (e : pyexc).

Record listener : Type := { records : list log_record; tasks : list task }.

Definition add_records (rs : list log_record) (l : listener) : listener :=
  {| records := records l ++ rs; tasks := tasks l |}.

Definition add_task (t : task) (l : listener) : listener :=
  {| records := records l; tasks := tasks l ++ [t] |}.

Section Listen.
(** [self._event_builder.build] *)
Variable build : string -> pyresult BotEvent.

(** The body of the inner [try] of [_listen]: the state it leaves, the
    local variable [raw_event] if it got bound, and what was raised. *)
Definition _listen_try (r : received) (l : listener)
  : listener * option string * option pyexc :=
  match r with
  | RecvClosed => (l, None, Some ConnectionClosed)
  | RecvCancelled => (l, None, Some CancelledError)
  | Text raw_event =>
      let l := add_records [DebugReceived raw_event] l in
      if String.eqb raw_event EmptyString
      then (l, Some raw_event, None)   (* continue *)
      else
        match build raw_event with
        | Raise e => (l, Some raw_event, Some e)
        | Ok event =>
            match is_resp_event event with
            | Raise e => (l, Some raw_event, Some e)
            | Ok resp =>
                (add_task (if resp then Respond event else Dispatch event) l,
                 Some raw_event, None)
            end
        end
  end.

(** The exception, if any, that building an event from a unit and
    classifying it raises. *)
Definition raised_by (raw_event : string) : option pyexc :=
  match build raw_event with
  | Raise e => Some e
  | Ok event =>
      match is_resp_event event with
      | Raise e => Some e
      | Ok _ => None
      end
  end.

(** One turn of the [while True] loop of [_listen], with the [except]
    clauses of the inner [try]; [Some e]: [e] leaves the loop. *)
Definition _listen_turn (r : received) (l : listener)
  : listener * option pyexc :=
  let '(l, raw_event, raised) := _listen_try r l in
  match raised with
  | None => (l, None)
  | Some ConnectionClosed => (l, Some ConnectionClosed)  (* except ConnectionClosed: raise *)
  | Some CancelledError => (l, Some CancelledError)      (* not an Exception *)
  | Some e =>                                            (* except Exception as e *)
      match raw_event with
      | Some raw_event =>
          (add_records [ErrorRaised; ErrorRawEvent raw_event;
                        ErrorTraceback e; ErrorLocals raw_event e] l, None)
      | None => (add_records [ErrorRaised] l, Some (OtherException "UnboundLocalError"))
      end
  end.

(** The [while True] loop, for at most [fuel] turns; [recv k] is the
    [k]-th answer of the transport.  It gives the state, the exception
    that left the loop if one did, and the number of units read. *)
Fixpoint _listen_loop (fuel : nat) (recv : nat -> received) (k : nat)
         (l : listener) : listener * option pyexc * nat :=
  match fuel with
  | O => (l, None, k)
  | S fuel =>
      match _listen_turn (recv k) l with
      | (l, None) => _listen_loop fuel recv (S k) l
      | (l, Some e) => (l, Some e, S k)
      end
  end.

End Listen.


(** A connector that was entered, whose [_run] has started and has failed
    to connect three times so far. *)
Definition three_failed_attempts : life :=
  steps (__aenter__ (new_life (init (-1) 4 1 true)))
        [RunStarts; RunAttempts false; RunAttempts false; RunAttempts false].

(** *** Further notions about the connector *)

(** The time a trace of [_run] spends in [asyncio.sleep]. *)
Fixpoint slept (trace : list run_event) : Z :=
  match trace with
  | [] => 0
  | EvConnect :: trace => slept trace
  | EvSleep delay :: trace => delay + slept trace
  end.

(** The hook that [_listen] emits once the connection is ready:
    [FIRST_CONNECTED] if not [self._reconn_flag], else [RECONNECTED]. *)
Inductive connected_hook : Type :=
| FIRST_CONNECTED
| RECONNECTED.

Definition _listen_hook (s : life) : connected_hook :=
  if negb (_reconn_flag s) then FIRST_CONNECTED else RECONNECTED.

(** The task, if any, that [_listen] creates for a unit: none for an empty
    unit or when building or classifying the event raises. *)
Definition issued (build : string -> pyresult BotEvent) (raw_event : string)
  : option task :=
  if String.eqb raw_event EmptyString then None
  else
    match build raw_event with
    | Raise _ => None
    | Ok event =>
        match is_resp_event event with
        | Raise _ => None
        | Ok resp => Some (if resp then Respond event else Dispatch event)
        end
    end.

(** What holds of a connector that was entered once and then left to the
    happenings. *)
Definition coherent (s : life) : Prop :=
  _reconn_flag s = (0 <? reconnects s)%nat /\
  spawned s = S (reconnects s) /\
  (started s <= spawned s)%nat /\
  (teardowns s + match phase s with Serving => 1 | _ => 0 end <= connects s)%nat.


End ForwardWsConn.

(** ** [melobot/types/models.py]: class [BotEvent] *)

Module BotEvent.
Import Py.

Section Args.
(** The values kept per parser, [Dict[str, ParseArgs]]. *)
Variable args_group : Type.

(** [self._args_map : Dict[Any, Dict[str, ParseArgs]] = None]; a parser is
    named by its id. *)
Record t : Type := { _args_map : option (gmap nat args_group) }.

(** [BotEvent.__init__] *)
Definition init : t := {| _args_map := None |}.

(** [BotEvent._get_args]; [None] stands for the answer [-1]. *)
Definition _get_args (self : t) (parser_id : nat) : option args_group :=
  match _args_map self with
  | None => None
  | Some m => m !! parser_id
  end.

(** [BotEvent._store_args] *)
Definition _store_args (self : t) (parser_id : nat) (args : args_group) : t :=
  let m : gmap nat args_group :=
    match _args_map self with None => ∅ | Some m => m end in
  {| _args_map := Some (<[parser_id := args]> m) |}.

End Args.

End BotEvent.

(** ** [melobot/types/tools.py]: decorators [lock] and [semaphore] *)

Module Guards.
Import Py.
#[local] Open Scope Z_scope.

Section Guard.
Variable T : Type.

(** How a call of a guarded function starts: it gets the outcome of the
    callback, or the wrapped function starts to run. *)
Inductive entered : Type :=
| Fallback (outcome : pyresult T)
| Runs.

(** *** [lock] *)

(** [alock.locked()], and the calls that are inside [async with alock]. *)
Record lock_guard : Type := { alock : bool; lock_running : nat }.

(** [alock = aio.Lock()] *)
Definition lock_init : lock_guard := {| alock := false; lock_running := O |}.

(** [wrapped_func], up to [await func(...)]: the test [alock.locked()] and
    the acquisition of a free lock happen without suspension. *)
Definition lock_enter (callback : Cooldown.called T) (g : lock_guard)
  : lock_guard * entered :=
  if alock g then (g, Fallback (Cooldown.await_callback T callback))
  else ({| alock := true; lock_running := S (lock_running g) |}, Runs).

(** The wrapped function of a running call finishes (returns or raises)
    and [async with alock] releases the lock. *)
Definition lock_leave (g : lock_guard) : lock_guard :=
  match lock_running g with
  | O => g
  | S n => {| alock := false; lock_running := n |}
  end.

(** *** [semaphore] *)

(** [a_semaphore._value], and the calls inside [async with a_semaphore]. *)
Record sem_guard : Type := { _value : nat; sem_running : nat }.

(** [a_semaphore = aio.Semaphore(value)]; [asyncio.Semaphore] raises
    [ValueError] for a negative initial value. *)
Definition sem_init (value : Z) : pyresult sem_guard :=
  if value <? 0 then Raise ValueError
  else Ok {| _value := Z.to_nat value; sem_running := O |}.

(** The default of the parameter [value] of [semaphore]. *)
Definition sem_default_value : Z := -1.

(** [wrapped_func], up to [await func(...)]; [a_semaphore.locked()] is
    [_value == 0]. *)
Definition sem_enter (callback : Cooldown.called T) (g : sem_guard)
  : sem_guard * entered :=
  match _value g with
  | O => (g, Fallback (Cooldown.await_callback T callback))
  | S n => ({| _value := n; sem_running := S (sem_running g) |}, Runs)
  end.

Definition sem_leave (g : sem_guard) : sem_guard :=
  match sem_running g with
  | O => g
  | S n => {| _value := S (_value g); sem_running := n |}
  end.

(** Calls arriving and running calls finishing, in any order. *)
Inductive guard_event : Type :=
| Arrive
| Finish.

Definition lock_step (callback : Cooldown.called T) (g : lock_guard)
           (ev : guard_event) : lock_guard :=
  match ev with
  | Arrive => fst (lock_enter callback g)
  | Finish => lock_leave g
  end.

Definition sem_step (callback : Cooldown.called T) (g : sem_guard)
           (ev : guard_event) : sem_guard :=
  match ev with
  | Arrive => fst (sem_enter callback g)
  | Finish => sem_leave g
  end.

End Guard.

Arguments Fallback {T} outcome.
Arguments Runs {T}.

End Guards.

(** ** [melobot/types/tools.py]: class [RWController] *)

Module RWController.
Import Py.
#[local] Open Scope Z_scope.

(** The closure variables of [RWController.__init__], and how many callers
    of [safe_read] and [safe_write] are at which point. *)
Record t : Type := {
  write_semaphore : nat;
  read_semaphore : option nat;
  read_num : Z;
  (** [read_num_lock.locked()] *)
  read_num_lock : bool;
  (** readers that hold a read permit and wait for [read_num_lock] *)
  r_permitted : nat;
  (** readers inside the first [async with read_num_lock] *)
  r_entering : nat;
  (** readers between [yield] and the second [async with read_num_lock] *)
  r_reading : nat;
  (** readers inside the second [async with read_num_lock] *)
  r_leaving : nat;
  (** writers between [write_semaphore.acquire()] and its release *)
  w_writing : nat
}.

(** [RWController.__init__]: [if read_limit:] takes [None] and [0] alike;
    [aio.Semaphore] raises [ValueError] for a negative value. *)
Definition init (read_limit : option Z) : pyresult t :=
  let start (rs : option nat) :=
    {| write_semaphore := 1; read_semaphore := rs; read_num := 0;
       read_num_lock := false; r_permitted := O; r_entering := O;
       r_reading := O; r_leaving := O; w_writing := O |} in
  match read_limit with
  | None => Ok (start None)
  | Some n =>
      if n =? 0 then Ok (start None)
      else if n <? 0 then Raise ValueError
      else Ok (start (Some (Z.to_nat n)))
  end.

(** The steps between the suspension points of [safe_read] and
    [safe_write].  A step that would have to wait leaves the state as it
    is. *)
Inductive step_label : Type :=
| ReadPermit      (* [await read_semaphore.acquire()] returns *)
| ReadLock        (* the first [async with read_num_lock] is entered *)
| ReadEnter       (* [write_semaphore] taken if first; [read_num += 1]; [yield] *)
| ReadUnlock      (* the second [async with read_num_lock] is entered *)
| ReadLeave       (* [read_num -= 1]; releases *)
| WriteEnter      (* [await write_semaphore.acquire()] returns *)
| WriteLeave.     (* [write_semaphore.release()] *)

Definition step (s : t) (l : step_label) : t :=
  match l with
  | ReadPermit =>
      match read_semaphore s with
      | Some O => s
      | rs =>
          {| write_semaphore := write_semaphore s;
             read_semaphore := option_map Nat.pred rs;
             read_num := read_num s; read_num_lock := read_num_lock s;
             r_permitted := S (r_permitted s); r_entering := r_entering s;
             r_reading := r_reading s; r_leaving := r_leaving s;
             w_writing := w_writing s |}
      end
  | ReadLock =>
      match r_permitted s, read_num_lock s with
      | S n, false =>
          {| write_semaphore := write_semaphore s;
             read_semaphore := read_semaphore s;
             read_num := read_num s; read_num_lock := true;
             r_permitted := n; r_entering := S (r_entering s);
             r_reading := r_reading s; r_leaving := r_leaving s;
             w_writing := w_writing s |}
      | _, _ => s
      end
  | ReadEnter =>
      match r_entering s with
      | S n =>
          match read_num s =? 0, write_semaphore s with
          | true, O => s
          | first, _ =>
              {| write_semaphore :=
                   if first then Nat.pred (write_semaphore s)
                   else write_semaphore s;
                 read_semaphore := read_semaphore s;
                 read_num := read_num s + 1; read_num_lock := false;
                 r_permitted := r_permitted s; r_entering := n;
                 r_reading := S (r_reading s); r_leaving := r_leaving s;
                 w_writing := w_writing s |}
          end
      | O => s
      end
  | ReadUnlock =>
      match r_reading s, read_num_lock s with
      | S n, false =>
          {| write_semaphore := write_semaphore s;
             read_semaphore := read_semaphore s;
             read_num := read_num s; read_num_lock := true;
             r_permitted := r_permitted s; r_entering := r_entering s;
             r_reading := n; r_leaving := S (r_leaving s);
             w_writing := w_writing s |}
      | _, _ => s
      end
  | ReadLeave =>
      match r_leaving s with
      | S n =>
          {| write_semaphore :=
               if read_num s - 1 =? 0 then S (write_semaphore s)
               else write_semaphore s;
             read_semaphore := option_map S (read_semaphore s);
             read_num := read_num s - 1; read_num_lock := false;
             r_permitted := r_permitted s; r_entering := r_entering s;
             r_reading := r_reading s; r_leaving := n;
             w_writing := w_writing s |}
      | O => s
      end
  | WriteEnter =>
      match write_semaphore s with
      | S n =>
          {| write_semaphore := n; read_semaphore := read_semaphore s;
             read_num := read_num s; read_num_lock := read_num_lock s;
             r_permitted := r_permitted s; r_entering := r_entering s;
             r_reading := r_reading s; r_leaving := r_leaving s;
             w_writing := S (w_writing s) |}
      | O => s
      end
  | WriteLeave =>
      match w_writing s with
      | S n =>
          {| write_semaphore := S (write_semaphore s);
             read_semaphore := read_semaphore s;
             read_num := read_num s; read_num_lock := read_num_lock s;
             r_permitted := r_permitted s; r_entering := r_entering s;
             r_reading := r_reading s; r_leaving := r_leaving s;
             w_writing := n |}
      | O => s
      end
  end.

Definition steps (s : t) (ls : list step_label) : t := fold_left step ls s.

(** What the counters and the closure variables have to do with each
    other; [limit] is the read limit, if there is one. *)
Definition consistent (limit : option nat) (s : t) : Prop :=
  read_num s = Z.of_nat (r_reading s + r_leaving s) /\
  (write_semaphore s + w_writing s
   + (if (read_num s =? 0)%Z then 0 else 1) = 1)%nat /\
  (r_entering s + r_leaving s = if read_num_lock s then 1 else 0)%nat /\
  match limit, read_semaphore s with
  | Some n, Some free =>
      (free + r_permitted s + r_entering s + r_reading s + r_leaving s = n)%nat
  | None, None => True
  | _, _ => False
  end.

End RWController.

(** ** [melobot/types/tools.py]: [call_at], [async_later], [async_at] *)

Module Scheduling.
Import Py.
#[local] Open Scope Z_scope.

(** What [call_at] asks of the event loop. *)
Inductive scheduled : Type :=
| call_soon
| call_later (delay : Z).

(** [call_at]; [t1] and [t2] are its two readings of [time.time()]. *)
Definition call_at (timestamp t1 t2 : Z) : scheduled :=
  if timestamp <=? t1 then call_soon else call_later (timestamp - t2).

(** The earliest time at which the loop runs a callback scheduled at time
    [t]: at once for [call_soon], and not before [t + delay] for
    [call_later]. *)
Definition earliest (t : Z) (s : scheduled) : Z :=
  match s with
  | call_soon => t
  | call_later delay => t + Z.max 0 delay
  end.

Section Later.
Variable T : Type.

(** What has become of a call of [async_later]: the result of the future,
    if it was set; the time at which the callback was awaited, if it was;
    and whether the callback was closed. *)
Record later : Type := {
  fut : option T;
  awaited_at : option Z;
  closed : bool
}.

(** [async_later].  The task starts at [t_task]; [callback] is the outcome
    of awaiting the coroutine; [cancelled] tells whether the task is
    cancelled during [aio.sleep(delay)], which then raises
    [CancelledError]; [oversleep] is the time the sleep takes beyond
    [delay]. *)
Definition async_later (callback : pyresult T) (delay : Z)
           (t_task oversleep : Z) (cancelled : bool) : later :=
  if cancelled then
    (* except aio.CancelledError: callback.close() *)
    {| fut := None; awaited_at := None; closed := true |}
  else
    let t := t_task + Z.max 0 delay + oversleep in
    match callback with
    | Ok res => {| fut := Some res; awaited_at := Some t; closed := false |}
    | Raise _ => {| fut := None; awaited_at := Some t; closed := false |}
    end.

(** [async_at]; [t1] and [t2] are its two readings of [time.time()]. *)
Definition async_at (callback : pyresult T) (timestamp t1 t2 : Z)
           (t_task oversleep : Z) (cancelled : bool) : later :=
  if timestamp <=? t1 then async_later callback 0 t_task oversleep cancelled
  else async_later callback (timestamp - t2) t_task oversleep cancelled.

End Later.

End Scheduling.

(* ===================================================================== *)
(** * Part II: properties                                                 *)
(* ===================================================================== *)

Section FlagableProps.
Import Py Flagable.

Lemma flag_check_default_spec (self : t) (ns name : string) :
  flag_check_default self ns name = true <->
  exists store flags,
    _flags_store self = Some store /\
    store !! ns = Some flags /\
    flags !! name = Some PyNone.
Proof.
  unfold flag_check_default, flag_check. split.
  - destruct (_flags_store self) as [store|]; [|discriminate].
    destruct (store !! ns) as [flags|] eqn:Hns; [|discriminate].
    destruct (flags !! name) as [v|] eqn:Hname; simpl; [|discriminate].
    destruct v; simpl; try discriminate.
    intros _. exists store, flags. auto.
  - intros (store & flags & -> & -> & ->). reflexivity.
Qed.

Lemma mark_lookup (self self' : t) (ns name : string) (v : pyval) :
  mark self ns name v = Ok self' ->
  exists store flags,
    _flags_store self' = Some store /\
    store !! ns = Some flags /\
    flags !! name = Some v.
Proof.
  unfold mark.
  set (store0 := match _flags_store self with None => ∅ | Some s => s end).
  set (store1 := match store0 !! ns with
                 | None => <[ns := ∅]> store0 | Some _ => store0 end).
  destruct (default ∅ (store1 !! ns) !! name) eqn:Hn; [discriminate|].
  intros [= <-]. simpl.
  eexists _, _. split; [reflexivity|].
  split; [apply lookup_insert_eq | apply lookup_insert_eq].
Qed.

(** C10. [flag_check] with the default [val = None] answers [True]
    exactly when the flag exists in the namespace and its stored value is
    [None]; so after [mark(namespace, name, v)] with [v] not [None],
    [flag_check(namespace, name)] is [False] although the flag is there. *)
Theorem flag_check_default_only_None :
  (forall (self : t) (ns name : string),
      flag_check_default self ns name = true <->
      exists store flags,
        _flags_store self = Some store /\
        store !! ns = Some flags /\
        flags !! name = Some PyNone) /\
  (forall (self self' : t) (ns name : string) (v : pyval),
      v <> PyNone ->
      mark self ns name v = Ok self' ->
      flag_check_default self' ns name = false /\
      exists store flags,
        _flags_store self' = Some store /\
        store !! ns = Some flags /\
        flags !! name = Some v).
Proof.
  split; [apply flag_check_default_spec|].
  intros self self' ns name v Hv Hmark.
  pose proof (mark_lookup _ _ _ _ _ Hmark) as Hl.
  split; [|exact Hl].
  destruct (flag_check_default self' ns name) eqn:Hc; [|reflexivity].
  apply flag_check_default_spec in Hc.
  destruct Hl as (s1 & f1 & H1 & H2 & H3).
  destruct Hc as (s2 & f2 & H4 & H5 & H6).
  congruence.
Qed.

Lemma flag_check_default_only_None_witness :
  flag_check_default
    {| _flags_store := Some {[ "ns"%string := {[ "seen"%string := PyInt 1 ]} ]} |}
    "ns" "seen" = false.
Proof.
  refine (proj1 (proj2 flag_check_default_only_None init _ "ns"%string "seen"%string (PyInt 1) _ _)).
  - discriminate.
  - vm_compute. reflexivity.
Defined.

End FlagableProps.

Section TwinEventProps.
Import TwinEvent.

Lemma is_set_Event_set_eq (x : nat) (h : heap) :
  is_Some (h !! x) -> is_set x (Event_set x h) = true.
Proof.
  intros [o Ho]. unfold is_set, Event_set.
  rewrite list_lookup_alter_eq, Ho. reflexivity.
Qed.

Lemma is_set_Event_clear_eq (x : nat) (h : heap) :
  is_set x (Event_clear x h) = false.
Proof.
  unfold is_set, Event_clear. rewrite list_lookup_alter_eq.
  destruct (h !! x); reflexivity.
Qed.

Lemma is_set_Event_set_ne (x y : nat) (h : heap) :
  x <> y -> is_set y (Event_set x h) = is_set y h.
Proof.
  intros Hxy. unfold is_set, Event_set.
  rewrite list_lookup_alter_ne by exact Hxy. reflexivity.
Qed.

Lemma is_set_Event_clear_ne (x y : nat) (h : heap) :
  x <> y -> is_set y (Event_clear x h) = is_set y h.
Proof.
  intros Hxy. unfold is_set, Event_clear.
  rewrite list_lookup_alter_ne by exact Hxy. reflexivity.
Qed.

Lemma twin_of_Event_set (x y : nat) (h : heap) :
  twin_of y (Event_set x h) = twin_of y h.
Proof.
  unfold twin_of, Event_set. destruct (decide (x = y)) as [->|Hxy].
  - rewrite list_lookup_alter_eq. destruct (h !! y); reflexivity.
  - rewrite list_lookup_alter_ne by exact Hxy. reflexivity.
Qed.

Lemma twin_of_Event_clear (x y : nat) (h : heap) :
  twin_of y (Event_clear x h) = twin_of y h.
Proof.
  unfold twin_of, Event_clear. destruct (decide (x = y)) as [->|Hxy].
  - rewrite list_lookup_alter_eq. destruct (h !! y); reflexivity.
  - rewrite list_lookup_alter_ne by exact Hxy. reflexivity.
Qed.

Lemma twin_of_is_Some (x y : nat) (h : heap) :
  twin_of x h = Some y -> is_Some (h !! x).
Proof. unfold twin_of. destruct (h !! x); [eauto | discriminate]. Qed.

(** [set] on a bound event sets it and clears its twin. *)
Lemma set_twins (a b : nat) (h : heap) :
  twins a b h ->
  twins a b (set a h) /\ is_set a (set a h) = true /\ is_set b (set a h) = false.
Proof.
  intros (Hab & Ha & Hb & _). unfold set.
  rewrite twin_of_Event_set, Ha.
  assert (Hsa : is_set a (Event_clear b (Event_set a h)) = true).
  { rewrite is_set_Event_clear_ne by congruence.
    apply is_set_Event_set_eq. eapply twin_of_is_Some, Ha. }
  assert (Hsb : is_set b (Event_clear b (Event_set a h)) = false)
    by apply is_set_Event_clear_eq.
  repeat split; try assumption.
  - rewrite twin_of_Event_clear, twin_of_Event_set. exact Ha.
  - rewrite twin_of_Event_clear, twin_of_Event_set. exact Hb.
  - rewrite Hsa, Hsb. reflexivity.
Qed.

(** [clear] on a bound event clears it and sets its twin. *)
Lemma clear_twins (a b : nat) (h : heap) :
  twins a b h ->
  twins a b (clear a h) /\ is_set a (clear a h) = false /\ is_set b (clear a h) = true.
Proof.
  intros (Hab & Ha & Hb & _). unfold clear.
  rewrite twin_of_Event_clear, Ha.
  assert (Hsa : is_set a (Event_set b (Event_clear a h)) = false).
  { rewrite is_set_Event_set_ne by congruence. apply is_set_Event_clear_eq. }
  assert (Hsb : is_set b (Event_set b (Event_clear a h)) = true).
  { apply is_set_Event_set_eq.
    destruct (twin_of_is_Some _ _ _ Hb) as [o Ho].
    unfold Event_clear. rewrite list_lookup_alter_ne by congruence. eauto. }
  repeat split; try assumption.
  - rewrite twin_of_Event_set, twin_of_Event_clear. exact Ha.
  - rewrite twin_of_Event_set, twin_of_Event_clear. exact Hb.
  - rewrite Hsa, Hsb. reflexivity.
Qed.

Lemma twins_sym (a b : nat) (h : heap) : twins a b h -> twins b a h.
Proof.
  intros (Hab & Ha & Hb & Hv). repeat split; try assumption.
  - congruence.
  - rewrite Hv. destruct (is_set a h); reflexivity.
Qed.

Lemma do_call_twins (a b : nat) (c : call) (h : heap) :
  twins a b h -> twins a b (do_call a b c h).
Proof.
  intros Ht. destruct c as [[|]|[|]]; simpl.
  - apply set_twins, Ht.
  - apply twins_sym, set_twins, twins_sym, Ht.
  - apply clear_twins, Ht.
  - apply twins_sym, clear_twins, twins_sym, Ht.
Qed.

Lemma do_calls_twins (a b : nat) (cs : list call) (h : heap) :
  twins a b h -> twins a b (do_calls a b cs h).
Proof.
  revert h. induction cs as [|c cs IH]; intros h Ht; simpl; [exact Ht|].
  apply IH, do_call_twins, Ht.
Qed.

Lemma get_twin_event_twins (h0 : heap) :
  let '(a, b, h) := get_twin_event h0 in
  twins a b h /\ is_set a h = false /\ is_set b h = true.
Proof.
  unfold get_twin_event, new. cbv zeta.
  rewrite length_app. simpl length.
  set (a := length h0). set (b := a + 1).
  set (o := {| _value := false; _twin := None |}).
  assert (Hab : a <> b) by (unfold b; lia).
  assert (Ha0 : ((h0 ++ [o]) ++ [o]) !! a = Some o).
  { rewrite lookup_app_l by (rewrite length_app; simpl; unfold a; lia).
    apply list_lookup_middle. reflexivity. }
  assert (Hb0 : ((h0 ++ [o]) ++ [o]) !! b = Some o).
  { apply list_lookup_middle. rewrite length_app. reflexivity. }
  unfold twins, bind. unfold is_set, Event_set, Event_clear, twin_of.
  repeat first
    [ rewrite list_lookup_alter_eq
    | rewrite list_lookup_alter_ne by congruence
    | rewrite Ha0 | rewrite Hb0 | progress simpl ].
  auto.
Qed.

(** C7. [get_twin_event] returns the first event unset and the second
    set; after any finite sequence of [set]/[clear] calls on either member
    exactly one of the two is set, and each further call has its effect:
    [set] leaves its target set and the partner clear, [clear] leaves its
    target clear and the partner set. *)
Theorem twin_event_exactly_one_set (h0 : heap) (cs : list call) :
  let '(a, b, h) := get_twin_event h0 in
  (is_set a h = false /\ is_set b h = true) /\
  xorb (is_set a (do_calls a b cs h)) (is_set b (do_calls a b cs h)) = true /\
  (forall c : call,
      let h' := do_call a b c (do_calls a b cs h) in
      match c with
      | CallSet f =>
          is_set (target a b f) h' = true /\
          is_set (target a b (negb f)) h' = false
      | CallClear f =>
          is_set (target a b f) h' = false /\
          is_set (target a b (negb f)) h' = true
      end).
Proof.
  pose proof (get_twin_event_twins h0) as H0.
  destruct (get_twin_event h0) as [[a b] h].
  destruct H0 as (Ht & Ha & Hb).
  split; [auto|].
  pose proof (do_calls_twins a b cs h Ht) as Hcs.
  split.
  - destruct Hcs as (_ & _ & _ & Hv). rewrite Hv.
    destruct (is_set a (do_calls a b cs h)); reflexivity.
  - intros c. cbv zeta. destruct c as [[|]|[|]]; simpl.
    + apply set_twins, Hcs.
    + pose proof (set_twins b a _ (twins_sym _ _ _ Hcs)). tauto.
    + apply clear_twins, Hcs.
    + pose proof (clear_twins b a _ (twins_sym _ _ _ Hcs)). tauto.
Qed.

End TwinEventProps.

Section IdWorkerProps.
Import Py IdWorker.
#[local] Open Scope Z_scope.

(** *** Bit-level facts about the layout of an id *)

Lemma land_shiftl_small (a n b : Z) :
  0 <= n -> 0 <= b < 2 ^ n -> Z.land (Z.shiftl a n) b = 0.
Proof.
  intros Hn Hb. apply Z.bits_inj'. intros m Hm.
  rewrite Z.land_spec, Z.bits_0.
  destruct (Z.ltb_spec m n) as [Hlt|Hge].
  - rewrite Z.shiftl_spec_low by exact Hlt. reflexivity.
  - destruct (Z.eq_dec b 0) as [->|Hb0].
    + rewrite Z.bits_0. apply andb_false_r.
    + rewrite (Z.bits_above_log2 b m); [apply andb_false_r | lia |].
      apply Z.lt_le_trans with n; [|exact Hge].
      apply Z.log2_lt_pow2; lia.
Qed.

Lemma lor_shiftl_add (a n b : Z) :
  0 <= n -> 0 <= b < 2 ^ n -> Z.lor (Z.shiftl a n) b = a * 2 ^ n + b.
Proof.
  intros Hn Hb.
  pose proof (Z.add_lor_land (Z.shiftl a n) b) as H.
  rewrite land_shiftl_small in H by assumption.
  rewrite <- (Z.shiftl_mul_pow2 a n) by exact Hn. lia.
Qed.

Lemma SEQUENCE_MASK_ones : SEQUENCE_MASK = Z.ones 12.
Proof. reflexivity. Qed.

Lemma land_mask_range (x : Z) : 0 <= Z.land x SEQUENCE_MASK <= 4095.
Proof.
  rewrite SEQUENCE_MASK_ones, Z.land_ones by lia.
  pose proof (Z.mod_pos_bound x (2 ^ 12)). lia.
Qed.

Lemma land_mask_succ (s : Z) :
  0 <= s <= 4095 ->
  Z.land (s + 1) SEQUENCE_MASK <> 0 ->
  Z.land (s + 1) SEQUENCE_MASK = s + 1.
Proof.
  rewrite SEQUENCE_MASK_ones, Z.land_ones by lia. intros Hs Hnz.
  destruct (Z.eq_dec s 4095) as [->|Hne]; [exfalso; apply Hnz; reflexivity|].
  apply Z.mod_small. lia.
Qed.

(** With the fields in range, the bitwise assembly is a sum. *)
Lemma new_id_sum (self : t) (timestamp : Z) :
  wf self -> 0 <= sequence self <= 4095 ->
  new_id self timestamp =
  (timestamp - STARTEPOCH) * 2 ^ 20
  + (datacenter_id self * 2 ^ 15 + worker_id self * 2 ^ 12 + sequence self).
Proof.
  intros [Hw Hd] Hs. unfold new_id.
  rewrite <- !Z.lor_assoc.
  unfold WOKER_ID_SHIFT, DATACENTER_ID_SHIFT, TIMESTAMP_LEFT_SHIFT. simpl Z.add.
  rewrite (lor_shiftl_add (worker_id self) 12) by lia.
  rewrite (lor_shiftl_add (datacenter_id self) 15) by lia.
  rewrite (lor_shiftl_add (timestamp - STARTEPOCH) 20) by lia.
  lia.
Qed.

Lemma new_id_fields (self : t) (timestamp : Z) :
  wf self -> 0 <= sequence self <= 4095 ->
  timestamp_of (new_id self timestamp) = timestamp /\
  sequence_of (new_id self timestamp) = sequence self.
Proof.
  intros Hwf Hs. rewrite new_id_sum by assumption.
  destruct Hwf as [Hw Hd]. split.
  - unfold timestamp_of, TIMESTAMP_LEFT_SHIFT. simpl Z.add.
    rewrite Z.shiftr_div_pow2 by lia.
    rewrite Z.div_add_l by lia. rewrite Z.div_small by lia. lia.
  - unfold sequence_of. rewrite SEQUENCE_MASK_ones, Z.land_ones by lia.
    symmetry.
    apply Z.mod_unique_pos
      with (q := (timestamp - STARTEPOCH) * 2 ^ 8
                 + datacenter_id self * 2 ^ 3 + worker_id self); lia.
Qed.

Lemma init_wf (dc w s : Z) (self : t) :
  init dc w s = Ok self ->
  wf self /\ last_timestamp self = -1 /\ sequence self = s /\
  datacenter_id self = dc /\ worker_id self = w.
Proof.
  unfold init, wf.
  change MAX_WORKER_ID with 7. change MAX_DATACENTER_ID with 31.
  destruct (w >? 7) eqn:E1; [discriminate|].
  destruct (w <? 0) eqn:E2; [discriminate|].
  destruct (dc >? 31) eqn:E3; [discriminate|].
  destruct (dc <? 0) eqn:E4; [discriminate|].
  simpl. intros [= <-]. simpl. lia.
Qed.
(** *** What one call does *)

Lemma til_next_millis_spec (clock : nat -> Z) (fuel : nat) (last : Z)
      (tick : nat) (ts : Z) (tick' : nat) :
  __til_next_millis clock fuel last tick = Some (ts, tick') ->
  exists j : nat,
    (tick <= j)%nat /\ tick' = S j /\ ts = clock j /\ last < ts /\
    forall k : nat, (tick <= k < j)%nat -> clock k <= last.
Proof.
  revert tick. induction fuel as [|fuel IH]; intros tick; simpl; [discriminate|].
  destruct (clock tick <=? last) eqn:E.
  - intros H. apply IH in H as (j & Hj & -> & -> & Hlt & Hw).
    exists j. repeat split; try lia.
    intros k Hk. destruct (Nat.eq_dec k tick) as [->|Hne].
    + apply Z.leb_le, E.
    + apply Hw. lia.
  - intros [= <- <-]. apply Z.leb_gt in E.
    exists tick. repeat split; try lia.
Qed.

Lemma get_id_Ok (clock : nat -> Z) (fuel : nat) (self : t) (tick : nat)
      (id : Z) (self' : t) (tick' : nat) :
  get_id clock fuel self tick = Some (Ok (id, self'), tick') ->
  worker_id self' = worker_id self /\
  datacenter_id self' = datacenter_id self /\
  id = new_id self' (last_timestamp self') /\
  0 <= sequence self' <= 4095 /\
  (exists j : nat, (tick <= j < tick')%nat /\ last_timestamp self' = clock j) /\
  (last_timestamp self < last_timestamp self' \/
   last_timestamp self' = last_timestamp self /\
   sequence self' = Z.land (sequence self + 1) SEQUENCE_MASK /\
   sequence self' <> 0).
Proof.
  unfold get_id, __gen_timestamp.
  destruct (clock tick <? last_timestamp self) eqn:Elt; [discriminate|].
  apply Z.ltb_ge in Elt.
  destruct (clock tick =? last_timestamp self) eqn:Eeq.
  - apply Z.eqb_eq in Eeq.
    destruct (Z.land (sequence self + 1) SEQUENCE_MASK =? 0) eqn:Ez.
    + destruct (__til_next_millis clock fuel (last_timestamp self) (S tick))
        as [[ts tk]|] eqn:Et; [|discriminate].
      intros [= <- <- <-]. simpl.
      apply til_next_millis_spec in Et as (j & Hj & -> & -> & Hlt & _).
      apply Z.eqb_eq in Ez. rewrite Ez.
      do 3 (split; [reflexivity|]). split; [lia|].
      split; [exists j; split; [lia | reflexivity]|]. left. lia.
    + intros [= <- <- <-]. simpl. apply Z.eqb_neq in Ez.
      pose proof (land_mask_range (sequence self + 1)).
      do 3 (split; [reflexivity|]). split; [lia|].
      split; [exists tick; split; [lia | reflexivity]|]. right. auto.
  - intros [= <- <- <-]. simpl. apply Z.eqb_neq in Eeq.
    do 3 (split; [reflexivity|]). split; [lia|].
    split; [exists tick; split; [lia | reflexivity]|]. left. lia.
Qed.

(** Each id is larger than the one the worker's state stands for. *)
Lemma get_id_increases (clock : nat -> Z) (fuel : nat) (self : t) (tick : nat)
      (id : Z) (self' : t) (tick' : nat) :
  wf self -> 0 <= sequence self <= 4095 ->
  get_id clock fuel self tick = Some (Ok (id, self'), tick') ->
  new_id self (last_timestamp self) < id.
Proof.
  intros Hwf Hs H.
  apply get_id_Ok in H as (Hw & Hd & -> & Hs' & _ & Hcase).
  assert (Hwf' : wf self') by (unfold wf in *; rewrite Hw, Hd; exact Hwf).
  rewrite !new_id_sum by assumption.
  unfold wf in *. rewrite Hw, Hd.
  destruct Hcase as [Hlt | (Heq & Hseq & Hnz)].
  - lia.
  - rewrite Heq. rewrite Hseq in Hnz |- *.
    rewrite (land_mask_succ _ Hs Hnz). lia.
Qed.

Lemma get_ids_sorted_above (clock : nat -> Z) (fuel n : nat) :
  forall (self : t) (tick : nat) (ids : list Z) (self' : t) (tick' : nat),
    wf self -> 0 <= sequence self <= 4095 ->
    get_ids clock fuel n self tick = Some (ids, self', tick') ->
    Forall (Z.lt (new_id self (last_timestamp self))) ids /\
    StronglySorted Z.lt ids.
Proof.
  induction n as [|n IH]; intros self tick ids self' tick' Hwf Hs; simpl.
  - intros [= <- <- <-]. split; constructor.
  - destruct (get_id clock fuel self tick) as [[[[id s1]|e] t1]|] eqn:E1;
      try discriminate.
    destruct (get_ids clock fuel n s1 t1) as [[[ids1 s2] t2]|] eqn:E2;
      [|discriminate].
    intros [= <- <- <-].
    pose proof (get_id_increases _ _ _ _ _ _ _ Hwf Hs E1) as Hinc.
    pose proof (get_id_Ok _ _ _ _ _ _ _ E1) as (Hw & Hd & Hid & Hs1 & _ & _).
    assert (Hwf1 : wf s1) by (unfold wf in *; rewrite Hw, Hd; exact Hwf).
    destruct (IH _ _ _ _ _ Hwf1 Hs1 E2) as [Habove Hsorted].
    rewrite <- Hid in Habove.
    split.
    + constructor; [exact Hinc|].
      eapply Forall_impl; [exact Habove|]. simpl. intros x Hx. lia.
    + constructor; assumption.
Qed.

Lemma get_ids_length (clock : nat -> Z) (fuel n : nat) :
  forall (self : t) (tick : nat) (ids : list Z) (self' : t) (tick' : nat),
    get_ids clock fuel n self tick = Some (ids, self', tick') ->
    length ids = n.
Proof.
  induction n as [|n IH]; intros self tick ids self' tick'; simpl.
  - intros [= <- <- <-]. reflexivity.
  - destruct (get_id clock fuel self tick) as [[[[id s1]|e] t1]|]; try discriminate.
    destruct (get_ids clock fuel n s1 t1) as [[[ids1 s2] t2]|] eqn:E2;
      [|discriminate].
    intros [= <- <- <-]. simpl. f_equal. eapply IH, E2.
Qed.

(** The ids of a run of calls are strictly increasing, whatever the
    initial sequence number was. *)
Lemma get_ids_sorted (clock : nat -> Z) (fuel n : nat) (self : t) (tick : nat)
      (ids : list Z) (self' : t) (tick' : nat) :
  wf self ->
  get_ids clock fuel n self tick = Some (ids, self', tick') ->
  StronglySorted Z.lt ids.
Proof.
  intros Hwf. destruct n as [|n]; simpl.
  - intros [= <- <- <-]. constructor.
  - destruct (get_id clock fuel self tick) as [[[[id s1]|e] t1]|] eqn:E1;
      try discriminate.
    destruct (get_ids clock fuel n s1 t1) as [[[ids1 s2] t2]|] eqn:E2;
      [|discriminate].
    intros [= <- <- <-].
    pose proof (get_id_Ok _ _ _ _ _ _ _ E1) as (Hw & Hd & Hid & Hs1 & _ & _).
    assert (Hwf1 : wf s1) by (unfold wf in *; rewrite Hw, Hd; exact Hwf).
    destruct (get_ids_sorted_above _ _ _ _ _ _ _ _ Hwf1 Hs1 E2) as [Habove Hsorted].
    rewrite <- Hid in Habove. constructor; assumption.
Qed.

Lemma sorted_lt_NoDup (l : list Z) : StronglySorted Z.lt l -> NoDup l.
Proof.
  induction 1 as [|x l Hs IH Hx]; constructor; [|exact IH].
  intros Hin. rewrite Forall_forall in Hx.
  specialize (Hx x Hin). lia.
Qed.

(** *** The busy-wait ends once the clock moves on *)

Lemma til_next_millis_fuel_mono (clock : nat -> Z) (last : Z) (fuel : nat) :
  forall (fuel' tick : nat) (r : Z * nat),
    (fuel <= fuel')%nat ->
    __til_next_millis clock fuel last tick = Some r ->
    __til_next_millis clock fuel' last tick = Some r.
Proof.
  induction fuel as [|fuel IH]; intros fuel' tick r Hle; simpl; [discriminate|].
  destruct fuel' as [|fuel']; [lia|]. simpl.
  destruct (clock tick <=? last); [|auto].
  apply IH. lia.
Qed.

Lemma til_next_millis_total (clock : nat -> Z) (last : Z) (d : nat) :
  forall tick : nat,
    last < clock (tick + d)%nat ->
    exists r, __til_next_millis clock (S d) last tick = Some r.
Proof.
  induction d as [|d IH]; intros tick Hlt.
  - rewrite Nat.add_0_r in Hlt. simpl.
    destruct (clock tick <=? last) eqn:E; [apply Z.leb_le in E; lia | eauto].
  - cbn [__til_next_millis __gen_timestamp].
    destruct (clock tick <=? last) eqn:E; [|eauto].
    apply IH. replace (S tick + d)%nat with (tick + S d)%nat by lia. exact Hlt.
Qed.

Lemma get_id_fuel_mono (clock : nat -> Z) (fuel fuel' : nat) (self : t)
      (tick : nat) (r : pyresult (Z * t) * nat) :
  (fuel <= fuel')%nat ->
  get_id clock fuel self tick = Some r ->
  get_id clock fuel' self tick = Some r.
Proof.
  intros Hle. unfold get_id, __gen_timestamp.
  destruct (clock tick <? last_timestamp self); [auto|].
  destruct (clock tick =? last_timestamp self); [|auto].
  destruct (Z.land (sequence self + 1) SEQUENCE_MASK =? 0); [|auto].
  destruct (__til_next_millis clock fuel (last_timestamp self) (S tick))
    as [[ts tk]|] eqn:Et; [|discriminate].
  rewrite (til_next_millis_fuel_mono _ _ _ _ _ _ Hle Et). auto.
Qed.

Lemma get_ids_fuel_mono (clock : nat -> Z) (fuel fuel' n : nat) :
  (fuel <= fuel')%nat ->
  forall (self : t) (tick : nat) (r : list Z * t * nat),
    get_ids clock fuel n self tick = Some r ->
    get_ids clock fuel' n self tick = Some r.
Proof.
  intros Hle. induction n as [|n IH]; intros self tick r; simpl; [auto|].
  destruct (get_id clock fuel self tick) as [[[[id s1]|e] t1]|] eqn:E1;
    try discriminate.
  rewrite (get_id_fuel_mono _ _ _ _ _ _ Hle E1).
  destruct (get_ids clock fuel n s1 t1) as [[[ids1 s2] t2]|] eqn:E2;
    [|discriminate].
  rewrite (IH _ _ _ E2). auto.
Qed.

(** Under a clock that never goes back and does not stand still for
    ever, a call returns an id: it neither raises nor spins for ever. *)
Lemma get_id_total (clock : nat -> Z) (self : t) (tick : nat) :
  advancing clock ->
  last_timestamp self <= clock tick ->
  exists (fuel : nat) (id : Z) (self' : t) (tick' : nat),
    get_id clock fuel self tick = Some (Ok (id, self'), tick').
Proof.
  intros Hadv Hlast. unfold get_id, __gen_timestamp.
  destruct (clock tick <? last_timestamp self) eqn:Elt;
    [apply Z.ltb_lt in Elt; lia|].
  destruct (clock tick =? last_timestamp self); [|exists O; eauto].
  destruct (Z.land (sequence self + 1) SEQUENCE_MASK =? 0); [|exists O; eauto].
  destruct (Hadv (last_timestamp self) (S tick)) as (k & Hk & Hgt).
  destruct (til_next_millis_total clock (last_timestamp self) (k - S tick) (S tick))
    as [[ts tk] Hr].
  { replace (S tick + (k - S tick))%nat with k by lia. exact Hgt. }
  exists (S (k - S tick)). rewrite Hr. eauto.
Qed.

Lemma get_ids_total (clock : nat -> Z) (n : nat) :
  nondecreasing clock -> advancing clock ->
  forall (self : t) (tick : nat),
    last_timestamp self <= clock tick ->
    exists (fuel : nat) (r : list Z * t * nat),
      get_ids clock fuel n self tick = Some r.
Proof.
  intros Hmono Hadv. induction n as [|n IH]; intros self tick Hlast.
  - exists O. simpl. eauto.
  - destruct (get_id_total clock self tick Hadv Hlast)
      as (f1 & id & s1 & t1 & E1).
    pose proof (get_id_Ok _ _ _ _ _ _ _ E1)
      as (_ & _ & _ & _ & (j & Hj & Hlast1) & _).
    assert (Hinv : last_timestamp s1 <= clock t1).
    { rewrite Hlast1. apply Hmono. lia. }
    destruct (IH s1 t1 Hinv) as (f2 & [[ids s2] t2] & E2).
    exists (Nat.max f1 f2). simpl.
    rewrite (get_id_fuel_mono _ f1 (Nat.max f1 f2) _ _ _ (Nat.le_max_l _ _) E1).
    rewrite (get_ids_fuel_mono _ f2 (Nat.max f1 f2) _ (Nat.le_max_r _ _) _ _ _ E2).
    eauto.
Qed.

(** When the sequence number wraps, the call waits for a later
    millisecond and restarts the sequence at zero. *)
Lemma get_id_wrap (clock : nat -> Z) (fuel : nat) (self : t) (tick : nat)
      (id : Z) (self' : t) (tick' : nat) :
  wf self ->
  clock tick = last_timestamp self ->
  Z.land (sequence self + 1) SEQUENCE_MASK = 0 ->
  get_id clock fuel self tick = Some (Ok (id, self'), tick') ->
  last_timestamp self < timestamp_of id /\
  sequence_of id = 0 /\
  exists j : nat,
    tick' = S j /\ clock j = timestamp_of id /\
    forall k : nat, (tick < k < j)%nat -> clock k <= last_timestamp self.
Proof.
  intros Hwf Hsame Hwrap. unfold get_id, __gen_timestamp.
  rewrite Hsame, Z.ltb_irrefl, Z.eqb_refl, Hwrap. simpl (0 =? 0).  cbv iota.
  destruct (__til_next_millis clock fuel (last_timestamp self) (S tick))
    as [[ts tk]|] eqn:Et; [|discriminate].
  intros [= <- <- <-].
  apply til_next_millis_spec in Et as (j & Hj & -> & -> & Hlt & Hwait).
  match goal with |- context [new_id ?s _] => set (s1 := s) end.
  assert (Hwf1 : wf s1) by exact Hwf.
  assert (Hs1 : 0 <= sequence s1 <= 4095) by (simpl; lia).
  destruct (new_id_fields s1 (clock j) Hwf1 Hs1) as [Hts Hseq].
  rewrite Hts, Hseq. split; [exact Hlt|]. split; [reflexivity|].
  exists j. split; [reflexivity|]. split; [reflexivity|].
  intros k Hk. apply Hwait. lia.
Qed.

(** *** 5000 calls that start in one millisecond *)

Lemma stuck_clock_run :
  exists (w : t) (ids : list Z) (self' : t) (tick' : nat),
    ID_WORKER = Ok w /\
    get_ids stuck_clock (Z.to_nat 2000) (Z.to_nat 5000) w O
    = Some (ids, self', tick') /\
    timestamp_of (nth 4095 ids 0) = 1730000000000 /\
    sequence_of (nth 4095 ids 0) = 4095 /\
    timestamp_of (nth 4096 ids 0) = 1730000000001 /\
    sequence_of (nth 4096 ids 0) = 0.
Proof.
  set (w := {| worker_id := 1; datacenter_id := 1; sequence := 0;
               last_timestamp := -1 |}).
  assert (Hrun :
    match get_ids stuck_clock (Z.to_nat 2000) (Z.to_nat 5000) w O with
    | Some (ids, _, _) =>
        (timestamp_of (nth 4095 ids 0) =? 1730000000000) &&
        (sequence_of (nth 4095 ids 0) =? 4095) &&
        (timestamp_of (nth 4096 ids 0) =? 1730000000001) &&
        (sequence_of (nth 4096 ids 0) =? 0)
    | None => false
    end = true) by (vm_compute; reflexivity).
  destruct (get_ids stuck_clock (Z.to_nat 2000) (Z.to_nat 5000) w O)
    as [[[ids s] tk]|] eqn:E; [|discriminate].
  exists w, ids, s, tk. split; [reflexivity|]. split; [exact E|].
  apply andb_prop in Hrun as [Hrun H4].
  apply andb_prop in Hrun as [Hrun H3].
  apply andb_prop in Hrun as [H1 H2].
  apply Z.eqb_eq in H1, H2, H3, H4. auto.
Qed.

(** C8. Under a non-decreasing millisecond clock the ids returned by any
    run of [get_id] calls are strictly increasing and pairwise distinct,
    and if the clock does not stand still for ever every call returns;
    when the sequence counter wraps to zero the call busy-waits until the
    clock exceeds the last recorded time stamp, and the id then carries a
    strictly greater time stamp and sequence zero; 5000 calls that start
    in one millisecond run past the 4096 sequence values in this way. *)
Theorem get_id_strictly_increasing :
  (forall (clock : nat -> Z) (fuel n : nat) (self : t) (tick : nat)
          (ids : list Z) (self' : t) (tick' : nat),
      nondecreasing clock -> wf self ->
      get_ids clock fuel n self tick = Some (ids, self', tick') ->
      length ids = n /\ StronglySorted Z.lt ids /\ NoDup ids) /\
  (forall (clock : nat -> Z) (n : nat) (self : t) (tick : nat),
      nondecreasing clock -> advancing clock ->
      last_timestamp self <= clock tick ->
      exists (fuel : nat) (ids : list Z) (self' : t) (tick' : nat),
        get_ids clock fuel n self tick = Some (ids, self', tick')) /\
  (forall (clock : nat -> Z) (fuel : nat) (self : t) (tick : nat)
          (id : Z) (self' : t) (tick' : nat),
      wf self ->
      clock tick = last_timestamp self ->
      Z.land (sequence self + 1) SEQUENCE_MASK = 0 ->
      get_id clock fuel self tick = Some (Ok (id, self'), tick') ->
      last_timestamp self < timestamp_of id /\
      sequence_of id = 0 /\
      exists j : nat,
        tick' = S j /\ clock j = timestamp_of id /\
        forall k : nat, (tick < k < j)%nat -> clock k <= last_timestamp self) /\
  (exists (w : t) (ids : list Z) (self' : t) (tick' : nat),
      ID_WORKER = Ok w /\
      get_ids stuck_clock (Z.to_nat 2000) (Z.to_nat 5000) w O
      = Some (ids, self', tick') /\
      length ids = Z.to_nat 5000 /\
      StronglySorted Z.lt ids /\ NoDup ids /\
      timestamp_of (nth 4095 ids 0) = 1730000000000 /\
      sequence_of (nth 4095 ids 0) = 4095 /\
      timestamp_of (nth 4096 ids 0) = 1730000000001 /\
      sequence_of (nth 4096 ids 0) = 0).
Proof.
  assert (Hsorted : forall (clock : nat -> Z) (fuel n : nat) (self : t)
            (tick : nat) (ids : list Z) (self' : t) (tick' : nat),
            wf self ->
            get_ids clock fuel n self tick = Some (ids, self', tick') ->
            length ids = n /\ StronglySorted Z.lt ids /\ NoDup ids).
  { intros clock fuel n self tick ids self' tick' Hwf Hrun.
    pose proof (get_ids_sorted _ _ _ _ _ _ _ _ Hwf Hrun) as Hs.
    split; [eapply get_ids_length, Hrun|].
    split; [exact Hs | apply sorted_lt_NoDup, Hs]. }
  split; [intros; eapply Hsorted; eassumption|].
  split.
  { intros clock n self tick Hmono Hadv Hlast.
    destruct (get_ids_total clock n Hmono Hadv self tick Hlast)
      as (fuel & [[ids s] tk] & Hrun).
    eauto. }
  split; [intros; eapply get_id_wrap; eassumption|].
  destruct stuck_clock_run as (w & ids & s & tk & Hw & Hrun & Hfields).
  exists w, ids, s, tk. split; [exact Hw|]. split; [exact Hrun|].
  assert (Hwf : wf w).
  { unfold ID_WORKER in Hw. apply init_wf in Hw. tauto. }
  destruct (Hsorted _ _ _ _ _ _ _ _ Hwf Hrun) as (Hlen & Hs & Hnd).
  tauto.
Qed.

Lemma get_id_strictly_increasing_witness :
  StronglySorted Z.lt
    [ 696798884659200000; 696798884659200001; 696798884660248576 ].
Proof.
  set (clock := fun k : nat => 1729500000000 + Z.of_nat k / 2).
  set (w := {| worker_id := 0; datacenter_id := 0; sequence := 0;
               last_timestamp := -1 |}).
  set (w' := {| worker_id := 0; datacenter_id := 0; sequence := 0;
                last_timestamp := 1729500000001 |}).
  refine (proj1 (proj2 (proj1 get_id_strictly_increasing clock 1%nat 3%nat w O
                   _ w' 3%nat _ _ _))).
  - intros i j Hij. unfold clock.
    apply Z.add_le_mono_l, Z.div_le_mono; lia.
  - unfold wf, w. simpl. lia.
  - reflexivity.
Defined.

End IdWorkerProps.

Section CooldownProps.
Import Py Cooldown.
#[local] Open Scope Z_scope.

(** C9. A call that finds the lock free and arrives before [interval]
    has elapsed since the last completed call: with a [cd_callback], the
    callback is called with [interval - elapsed], the wrapped function is
    not run, and what the callback's coroutine returns or raises (or what
    the callback itself raises) is what the caller gets; without one, the
    call sleeps for [interval - elapsed] and then runs the wrapped
    function. *)
Theorem cooldown_before_interval
        (T : Type) (busy_callback : called T)
        (cd_callback : option (Z -> called T)) (interval : Z)
        (func : pyresult T) (now finished : Z) (g : guard) :
  locked g = false ->
  now - pre_finish_t g < interval ->
  let remain_t := interval - (now - pre_finish_t g) in
  let call := wrapped_func T busy_callback cd_callback interval func
                           now finished g in
  (forall cb : Z -> called T,
      cd_callback = Some cb ->
      call = (await_callback T (cb remain_t), g, [EvCdCallback remain_t]) /\
      (forall outcome : pyresult T,
          cb remain_t = Coroutine outcome -> call.1.1 = outcome) /\
      (forall e : pyexc, cb remain_t = CallRaises e -> call.1.1 = Raise e)) /\
  (cd_callback = None ->
   call.2 = [EvSleep remain_t; EvFunc] /\
   call.1.1 = func /\
   call.1.2 = match func with
              | Ok _ => {| locked := false; pre_finish_t := finished |}
              | Raise _ => g
              end).
Proof.
  intros Hfree Hearly remain_t call.
  assert (Hcmp : (now - pre_finish_t g >? interval) = false).
  { rewrite Z.gtb_ltb. apply Z.ltb_ge. lia. }
  split.
  - intros cb ->.
    assert (Hcall : call = (await_callback T (cb remain_t), g,
                            [EvCdCallback remain_t])).
    { unfold call, wrapped_func. rewrite Hfree, Hcmp. reflexivity. }
    split; [exact Hcall|]. rewrite Hcall. simpl.
    split; [intros outcome -> | intros e ->]; reflexivity.
  - intros ->. unfold call, wrapped_func, run_func.
    rewrite Hfree, Hcmp. destruct func; simpl; rewrite ?Hfree; auto.
Qed.

Lemma cooldown_before_interval_witness :
  (wrapped_func Z (Coroutine (Ok 0)) (Some (fun r => Coroutine (Ok r))) 5
                (Ok 7) 103 104 {| locked := false; pre_finish_t := 100 |}).1.1
  = Ok 2.
Proof.
  refine (proj1 (proj2 (proj1
    (cooldown_before_interval Z (Coroutine (Ok 0))
       (Some (fun r => Coroutine (Ok r))) 5 (Ok 7) 103 104
       {| locked := false; pre_finish_t := 100 |} _ _)
    (fun r => Coroutine (Ok r)) eq_refl)) (Ok 2) eq_refl).
  - reflexivity.
  - simpl. lia.
Defined.

End CooldownProps.

Section ConnectProps.
Import Py ForwardWsConn.
#[local] Open Scope Z_scope.

Lemma attempts_failed_attempts (delay : Z) (n : nat) :
  attempts (failed_attempts delay n) = n.
Proof.
  induction n as [|n IH]; [reflexivity|].
  simpl. rewrite IH. reflexivity.
Qed.

(** A bounded loop whose attempts all fail runs through its budget. *)
Lemma connect_loop_range_all_fail (opens : nat -> bool) (delay : Z) (n : nat) :
  forall (fuel k : nat),
    (n < fuel)%nat ->
    (forall i : nat, (k <= i < k + n)%nat -> opens i = false) ->
    _run_loop opens delay fuel (range n) k
    = (failed_attempts delay n, NotCreated).
Proof.
  induction n as [|n IH]; intros fuel k Hfuel Hfail.
  - destruct fuel as [|fuel]; [lia|]. reflexivity.
  - destruct fuel as [|fuel]; [lia|]. simpl.
    rewrite (Hfail k) by lia.
    rewrite IH; [reflexivity | lia |].
    intros i Hi. apply Hfail. lia.
Qed.

(** A bounded loop ends within its budget, and it ends without a
    connection only if every attempt failed. *)
Lemma connect_loop_range_end (opens : nat -> bool) (delay : Z) (n : nat) :
  forall (fuel k : nat),
    (n < fuel)%nat ->
    let '(trace, e) := _run_loop opens delay fuel (range n) k in
    (attempts trace <= n)%nat /\
    (e = Created \/ e = NotCreated) /\
    (e = NotCreated -> forall i : nat, (k <= i < k + n)%nat -> opens i = false).
Proof.
  induction n as [|n IH]; intros fuel k Hfuel.
  - destruct fuel as [|fuel]; [lia|]. simpl.
    split; [reflexivity|]. split; [auto|]. intros _ i Hi. lia.
  - destruct fuel as [|fuel]; [lia|]. simpl.
    destruct (opens k) eqn:Ek.
    + split; [simpl; lia|]. split; [auto|]. discriminate.
    + specialize (IH fuel (S k) ltac:(lia)).
      destruct (_run_loop opens delay fuel (range n) (S k)) as [trace e].
      destruct IH as (Hatt & Hend & Hall).
      split; [simpl; lia|]. split; [exact Hend|].
      intros He i Hi. destruct (Nat.eq_dec i k) as [->|Hne]; [exact Ek|].
      apply (Hall He). lia.
Qed.

(** An unbounded loop never ends without a connection. *)
Lemma connect_loop_count_end (opens : nat -> bool) (delay : Z) (fuel : nat) :
  forall (n k : nat),
    snd (_run_loop opens delay fuel (count n) k) <> NotCreated.
Proof.
  induction fuel as [|fuel IH]; intros n k; simpl; [discriminate|].
  destruct (opens k); [discriminate|].
  specialize (IH (S n) (S k)).
  destruct (_run_loop opens delay fuel (count (S n)) (S k)). exact IH.
Qed.

Lemma connect_loop_count_all_fail (opens : nat -> bool) (delay : Z) (fuel : nat) :
  forall (n k : nat),
    (forall i : nat, opens i = false) ->
    _run_loop opens delay fuel (count n) k
    = (failed_attempts delay fuel, Looping).
Proof.
  induction fuel as [|fuel IH]; intros n k Hfail; simpl; [reflexivity|].
  rewrite Hfail, IH by exact Hfail. reflexivity.
Qed.

(** C1. With [max_retry >= 0] and an endpoint that never opens, [_run]
    makes exactly [max_retry + 1] attempts, sleeps [retry_delay] after
    each failed one (so between any two consecutive attempts), and raises
    [BotConnectFailed]; with [max_retry < 0] it retries without bound and
    never raises [BotConnectFailed]; with [max_retry >= 0] it ends, and it
    raises [BotConnectFailed] exactly when all [max_retry + 1] attempts
    fail. *)
Theorem run_connect_retry_budget (opens : nat -> bool) (self : config) :
  let budget := Z.to_nat (max_retry self + 1) in
  (0 <= max_retry self ->
   (forall k : nat, opens k = false) ->
   forall fuel : nat, (budget < fuel)%nat ->
     _run_connect opens self fuel
     = (failed_attempts (retry_delay self) budget, Some (Raise BotConnectFailed)) /\
     attempts (fst (_run_connect opens self fuel)) = budget) /\
  (max_retry self < 0 ->
   (forall fuel : nat,
       snd (_run_connect opens self fuel) <> Some (Raise BotConnectFailed)) /\
   ((forall k : nat, opens k = false) ->
    forall fuel : nat,
      _run_connect opens self fuel
      = (failed_attempts (retry_delay self) fuel, None) /\
      attempts (fst (_run_connect opens self fuel)) = fuel)) /\
  (0 <= max_retry self ->
   forall fuel : nat, (budget < fuel)%nat ->
     snd (_run_connect opens self fuel) <> None /\
     (attempts (fst (_run_connect opens self fuel)) <= budget)%nat /\
     (snd (_run_connect opens self fuel) = Some (Raise BotConnectFailed) <->
      forall k : nat, (k < budget)%nat -> opens k = false)).
Proof.
  intros budget. split; [|split].
  - intros Hmax Hfail fuel Hfuel.
    assert (Hrun : _run_connect opens self fuel
                   = (failed_attempts (retry_delay self) budget,
                      Some (Raise BotConnectFailed))).
    { unfold _run_connect, make_iter.
      destruct (Z.ltb_spec (max_retry self) 0) as [Hneg|_]; [lia|].
      fold budget.
      rewrite connect_loop_range_all_fail; auto. }
    split; [exact Hrun|]. rewrite Hrun. apply attempts_failed_attempts.
  - intros Hmax.
    assert (Hiter : make_iter (max_retry self) = count 0).
    { unfold make_iter. destruct (Z.ltb_spec (max_retry self) 0); [reflexivity|lia]. }
    split.
    + intros fuel. unfold _run_connect. rewrite Hiter.
      pose proof (connect_loop_count_end opens (retry_delay self) fuel O O) as Hend.
      destruct (_run_loop opens (retry_delay self) fuel (count 0) 0)
        as [trace e].
      simpl in *. destruct e; congruence.
    + intros Hfail fuel.
      assert (Hrun : _run_connect opens self fuel
                     = (failed_attempts (retry_delay self) fuel, None)).
      { unfold _run_connect. rewrite Hiter.
        rewrite connect_loop_count_all_fail by exact Hfail. reflexivity. }
      split; [exact Hrun|]. rewrite Hrun. apply attempts_failed_attempts.
  - intros Hmax fuel Hfuel.
    unfold _run_connect, make_iter.
    destruct (Z.ltb_spec (max_retry self) 0) as [Hneg|_]; [lia|].
    fold budget.
    pose proof (connect_loop_range_end opens (retry_delay self) budget fuel O Hfuel)
      as Hend.
    pose proof (connect_loop_range_all_fail opens (retry_delay self) budget fuel O Hfuel)
      as Hall.
    destruct (_run_loop opens (retry_delay self) fuel (range budget) 0)
      as [trace e].
    destruct Hend as (Hatt & Hend & Honly). simpl.
    split; [destruct Hend as [-> | ->]; discriminate|].
    split; [exact Hatt|].
    split.
    + intros He k Hk. apply Honly; [|lia].
      destruct e; congruence.
    + intros Hfail.
      assert (He : (trace, e)
                   = (failed_attempts (retry_delay self) budget, NotCreated)).
      { apply Hall. intros i Hi. apply Hfail. lia. }
      injection He as _ ->. reflexivity.
Qed.

Lemma run_connect_retry_budget_witness :
  _run_connect (fun _ => false) (init 2 4 1 false) 5
  = ([EvConnect; EvSleep 4; EvConnect; EvSleep 4; EvConnect; EvSleep 4],
     Some (Raise BotConnectFailed)).
Proof.
  refine (proj1 (proj1 (run_connect_retry_budget (fun _ => false)
                          (init 2 4 1 false)) _ _ 5%nat _)).
  - simpl. lia.
  - reflexivity.
  - simpl. lia.
Defined.

End ConnectProps.

Section LifecycleProps.
Import Py ForwardWsConn.

(** Once [_allow_reconn] is false it stays false, and from then on no
    happening calls [_reconnect] or creates a [_run] task. *)
Lemma step_no_reconnect (s : life) (h : happening) :
  _allow_reconn s = false ->
  _allow_reconn (step s h) = false /\
  spawned (step s h) = spawned s /\
  reconnects (step s h) = reconnects s.
Proof.
  intros Hallow. destruct h; simpl.
  - unfold _close. destruct (_client_close s) as [[|]|]; simpl; auto.
  - unfold _listen_finally, _close.
    destruct (_client_close s) as [[|]|] eqn:Hcc; simpl; auto.
    rewrite Hallow. simpl. rewrite ?Hcc. simpl. auto.
  - unfold run_starts. destruct (phase s); simpl; auto.
    destruct (started s <? spawned s)%nat; simpl; auto.
  - unfold run_attempts. destruct (phase s); simpl; auto.
    destruct ok; simpl; auto.
  - unfold run_gives_up. destruct (phase s); simpl; auto.
  - unfold run_finishes.
    destruct (phase s); simpl; auto.
    destruct (_client_close s) as [[|]|]; simpl; auto.
Qed.

Lemma steps_no_reconnect (hs : list happening) :
  forall s : life,
    _allow_reconn s = false ->
    _allow_reconn (steps s hs) = false /\
    spawned (steps s hs) = spawned s /\
    reconnects (steps s hs) = reconnects s.
Proof.
  induction hs as [|h hs IH]; intros s Hallow; simpl; [auto|].
  destruct (step_no_reconnect s h Hallow) as (H1 & H2 & H3).
  destruct (IH (step s h) H1) as (H4 & H5 & H6).
  repeat split; congruence.
Qed.

(** If moreover no [_run] is waiting to start or inside its connect
    loop, the transport is never opened again. *)
Lemma step_no_connect (s : life) (h : happening) :
  _allow_reconn s = false -> phase s <> Connecting -> started s = spawned s ->
  _allow_reconn (step s h) = false /\
  phase (step s h) <> Connecting /\
  started (step s h) = spawned (step s h) /\
  connects (step s h) = connects s.
Proof.
  destruct s as [cc cr ar rf ph sp st rc cn td]. simpl.
  intros -> Hphase ->.
  destruct h as [| | |ok| |]; simpl;
    unfold _close, _listen_finally, run_starts, run_attempts, run_gives_up,
      run_finishes; simpl;
    destruct cc as [[|]|]; destruct ph; simpl;
    rewrite ?Nat.ltb_irrefl; simpl;
    try (destruct ok; simpl);
    repeat split; solve [ auto | congruence ].
Qed.

Lemma steps_no_connect (hs : list happening) :
  forall s : life,
    _allow_reconn s = false -> phase s <> Connecting -> started s = spawned s ->
    connects (steps s hs) = connects s.
Proof.
  induction hs as [|h hs IH]; intros s Hallow Hphase Hstarted; simpl; [auto|].
  destruct (step_no_connect s h Hallow Hphase Hstarted) as (H1 & H2 & H3 & H4).
  rewrite IH by assumption. exact H4.
Qed.

(** C4, as amended. Once [_close] has run and completed the close future,
    it has forced [_allow_reconn] false; the [finally] block of [_listen]
    then returns at once, and whatever happens afterwards, in any order,
    [_reconnect] is not called and no [_run] task is created: no new
    connect cycle is started.  If no [_run] was inside its connect loop or
    waiting to start when the connector was closed, the transport is not
    opened again at all.  (A [_run] that is inside its connect loop is not
    interrupted by [_close].) *)
Theorem no_reconnect_after_close (s : life) (hs : list happening) :
  _client_close s = Some false ->
  let s1 := fst (_close s) in
  snd (_close s) = None /\
  _client_close s1 = Some true /\
  _allow_reconn s1 = false /\
  _listen_finally s1 = (s1, None) /\
  let s2 := steps s1 hs in
  _allow_reconn s2 = false /\
  reconnects s2 = reconnects s /\
  spawned s2 = spawned s /\
  reconnects (fst (_listen_finally s2)) = reconnects s /\
  spawned (fst (_listen_finally s2)) = spawned s /\
  (phase s <> Connecting -> started s = spawned s ->
   connects s2 = connects s).
Proof.
  intros Hopen. cbv zeta.
  assert (Hclose : _close s
                   = (with_client_close (Some true) (with_allow_reconn false s), None)).
  { unfold _close. rewrite Hopen. reflexivity. }
  rewrite Hclose. cbn [fst snd].
  set (s1 := with_client_close (Some true) (with_allow_reconn false s)).
  assert (Hallow1 : _allow_reconn s1 = false) by reflexivity.
  split; [reflexivity|]. split; [reflexivity|]. split; [reflexivity|].
  split; [reflexivity|].
  destruct (steps_no_reconnect hs s1 Hallow1) as (H1 & H2 & H3).
  destruct (step_no_reconnect (steps s1 hs) ListenEnds H1) as (_ & H4 & H5).
  simpl in H4, H5.
  split; [exact H1|]. split; [exact H3|]. split; [exact H2|].
  split; [rewrite H5; exact H3|]. split; [rewrite H4; exact H2|].
  intros Hphase Hstarted.
  apply (steps_no_connect hs s1 Hallow1 Hphase Hstarted).
Qed.

Lemma no_reconnect_after_close_witness :
  let s := {| _client_close := Some false; _conn_ready := true;
              _allow_reconn := true; _reconn_flag := false;
              phase := Serving; spawned := 1; started := 1;
              reconnects := 0; connects := 1; teardowns := 0 |} in
  reconnects (steps (fst (_close s)) [ListenEnds; RunFinishes; ListenEnds; RunStarts])
  = 0%nat.
Proof.
  intros s.
  refine (proj1 (proj2 (proj2 (proj2 (proj2 (proj2
    (no_reconnect_after_close s [ListenEnds; RunFinishes; ListenEnds; RunStarts]
                              _))))))).
  reflexivity.
Defined.

(** C4 as first stated, that no connect attempt at all is made after the
    close, fails: the [for] loop of [_run] never looks at the close future.
    A connector closed after three failed attempts of its connect loop has
    its close future completed and reconnection forbidden, and yet goes on
    to call [websockets.connect] three more times and ends up serving a
    connection with the ready gate open. *)
Lemma connect_attempts_after_close :
  _client_close three_failed_attempts = Some false /\
  connects three_failed_attempts = 3%nat /\
  _close three_failed_attempts
  = (with_client_close (Some true)
       (with_allow_reconn false three_failed_attempts), None) /\
  connects (steps (fst (_close three_failed_attempts))
                  [RunAttempts false; RunAttempts false; RunAttempts true])
  = 6%nat /\
  connects (steps (fst (_close three_failed_attempts))
                  [RunAttempts false; RunAttempts false; RunAttempts true])
  <> connects three_failed_attempts /\
  phase (steps (fst (_close three_failed_attempts))
               [RunAttempts false; RunAttempts false; RunAttempts true])
  = Serving /\
  _conn_ready (steps (fst (_close three_failed_attempts))
                     [RunAttempts false; RunAttempts false; RunAttempts true])
  = true.
Proof.
  repeat split; try reflexivity. discriminate.
Qed.

(** C5. [_close] called when the close future is already completed
    returns without raising and changes nothing; so a second [_close]
    after a first one is a no-op, and it causes no second run of the
    teardown of [_run]. *)
Theorem close_idempotent (s : life) :
  (_client_close s = Some true -> _close s = (s, None)) /\
  (_client_close s <> None ->
   snd (_close s) = None /\
   _close (fst (_close s)) = (fst (_close s), None)) /\
  steps s [Close; RunFinishes; Close; RunFinishes] = steps s [Close; RunFinishes] /\
  teardowns (steps s [Close; RunFinishes; Close; RunFinishes])
  = teardowns (steps s [Close; RunFinishes]).
Proof.
  split; [intros Hdone; unfold _close; rewrite Hdone; reflexivity|].
  split.
  - intros Hsome. unfold _close.
    destruct (_client_close s) as [[|]|] eqn:Hcc; [| |congruence]; simpl.
    + rewrite Hcc. auto.
    + auto.
  - assert (Hsame : steps s [Close; RunFinishes; Close; RunFinishes]
                    = steps s [Close; RunFinishes]).
    { unfold steps. simpl. unfold _close, run_finishes.
      destruct s as [cc cr ar rf ph sp st rc cn td].
      destruct cc as [[|]|]; destruct ph; reflexivity. }
    split; [exact Hsame | rewrite Hsame; reflexivity].
Qed.

Lemma close_idempotent_witness :
  let s := {| _client_close := Some true; _conn_ready := true;
              _allow_reconn := false; _reconn_flag := false;
              phase := NoRun; spawned := 1; started := 1;
              reconnects := 0; connects := 1; teardowns := 1 |} in
  _close s = (s, None).
Proof.
  intros s. refine (proj1 (close_idempotent s) _). reflexivity.
Defined.

End LifecycleProps.

Section SenderProps.
Import Py ForwardWsConn.
#[local] Open Scope Z_scope.

Lemma spaced_snoc (gap : Z) (y : BotAction * Z * Z) :
  forall l : list (BotAction * Z * Z),
    spaced gap l ->
    y.1.2 <= y.2 ->
    (forall x, last l = Some x -> gap <= y.1.2 - x.2) ->
    spaced gap (l ++ [y]).
Proof.
  induction l as [|x rest IH]; intros Hl Hy Hlast.
  - simpl. auto.
  - destruct Hl as (Hx & Hnext & Hrest).
    destruct rest as [|z rest].
    + specialize (Hlast x eq_refl). simpl. repeat split; auto; lia.
    + change ((x :: z :: rest) ++ [y]) with (x :: ((z :: rest) ++ [y])).
      split; [exact Hx|]. split; [exact Hnext|].
      apply IH; [exact Hrest | exact Hy |].
      intros x' Hx'. apply Hlast. exact Hx'.
Qed.

(** *** One turn of the sender loop *)

Lemma watch_iteration_sent (cd_time : Z) (p : pace) (s : sender)
      (action : BotAction) (rest : list BotAction) :
  watching s = true -> _send_queue s = action :: rest -> send_ok p = true ->
  let t_hooked := now s + idle p + hook_time p in
  let wait_time := cd_time - (t_hooked - _pre_send_time s) in
  let t_start := t_hooked + Z.max 0 wait_time + oversleep p in
  let t_done := t_start + send_time p in
  _send_queue_watch_turn cd_time p s
  = {| _send_queue := rest; _pre_send_time := t_done; slack := slack s;
       watching := true; now := t_done;
       log := (log s ++ [Dequeued action (now s + idle p);
                         PresendDone action t_hooked;
                         CooledDown wait_time t_start])
              ++ [Sent action t_start t_done] |}.
Proof.
  intros Hw Hq Hok. unfold _send_queue_watch_turn. rewrite Hw, Hq, Hok. reflexivity.
Qed.

Lemma watch_iteration_failed (cd_time : Z) (p : pace) (s : sender)
      (action : BotAction) (rest : list BotAction) :
  watching s = true -> _send_queue s = action :: rest -> send_ok p = false ->
  let t_hooked := now s + idle p + hook_time p in
  let wait_time := cd_time - (t_hooked - _pre_send_time s) in
  let t_start := t_hooked + Z.max 0 wait_time + oversleep p in
  let t_done := t_start + send_time p in
  _send_queue_watch_turn cd_time p s
  = {| _send_queue := rest; _pre_send_time := _pre_send_time s;
       slack := slack s; watching := false; now := t_done;
       log := (log s ++ [Dequeued action (now s + idle p);
                         PresendDone action t_hooked;
                         CooledDown wait_time t_start])
              ++ [SendFailed action t_done] |}.
Proof.
  intros Hw Hq Hok. unfold _send_queue_watch_turn. rewrite Hw, Hq, Hok. reflexivity.
Qed.

Lemma watch_iteration_blocked (cd_time : Z) (p : pace) (s : sender) :
  watching s = false \/ _send_queue s = [] ->
  _send_queue_watch_turn cd_time p s = s.
Proof.
  intros [Hw|Hq]; unfold _send_queue_watch_turn.
  - rewrite Hw. reflexivity.
  - rewrite Hq. destruct (watching s); reflexivity.
Qed.

(** The cases of one turn. *)
Lemma watch_iteration_cases (cd_time : Z) (p : pace) (s : sender) :
  _send_queue_watch_turn cd_time p s = s \/
  exists (action : BotAction) (rest : list BotAction),
    watching s = true /\ _send_queue s = action :: rest.
Proof.
  destruct (watching s) eqn:Hw; [|left; apply watch_iteration_blocked; auto].
  destruct (_send_queue s) as [|action rest] eqn:Hq;
    [left; apply watch_iteration_blocked; auto|].
  right. eauto.
Qed.

(** *** Spacing of the transmissions *)

Lemma play_paced (cd_time : Z) (s : sender) (m : move) :
  move_ok m -> paced cd_time s -> paced cd_time (play cd_time s m).
Proof.
  intros Hm [Hsp Hlast]. destruct m as [action|b|p]; simpl.
  - unfold _send. destruct (slack s); split; assumption.
  - split; assumption.
  - destruct (watch_iteration_cases cd_time p s)
      as [-> | (action & rest & Hw & Hq)]; [split; assumption|].
    destruct Hm as (Hidle & Hhook & Hover & Hsend).
    destruct (send_ok p) eqn:Hok.
    + rewrite (watch_iteration_sent cd_time p s action rest Hw Hq Hok).
      unfold paced, transmissions. cbn [log _pre_send_time].
      rewrite !omap_app. cbn [omap list_omap transmission].
      rewrite app_nil_r. fold (transmissions s).
      split.
      * apply spaced_snoc; [exact Hsp | simpl; lia |].
        intros x Hx. rewrite <- (Hlast x Hx). simpl. lia.
      * intros x. rewrite last_snoc. intros [= <-]. reflexivity.
    + rewrite (watch_iteration_failed cd_time p s action rest Hw Hq Hok).
      unfold paced, transmissions. cbn [log _pre_send_time].
      rewrite !omap_app. cbn [omap list_omap transmission].
      rewrite !app_nil_r. fold (transmissions s).
      split; assumption.
Qed.

Lemma plays_paced (cd_time : Z) (ms : list move) :
  forall s : sender,
    Forall move_ok ms -> paced cd_time s -> paced cd_time (plays cd_time s ms).
Proof.
  induction ms as [|m ms IH]; intros s Hms Hs; simpl; [exact Hs|].
  apply Forall_cons in Hms as [Hm Hms].
  apply IH; [exact Hms|]. apply play_paced; assumption.
Qed.
(** *** Order of the transmissions *)

Lemma transmissions_sent (cd_time : Z) (p : pace) (s : sender)
      (action : BotAction) (rest : list BotAction) :
  watching s = true -> _send_queue s = action :: rest -> send_ok p = true ->
  exists t_start t_done : Z,
    transmissions (_send_queue_watch_turn cd_time p s)
    = transmissions s ++ [(action, t_start, t_done)] /\
    _send_queue (_send_queue_watch_turn cd_time p s) = rest /\
    watching (_send_queue_watch_turn cd_time p s) = true /\
    slack (_send_queue_watch_turn cd_time p s) = slack s.
Proof.
  intros Hw Hq Hok.
  rewrite (watch_iteration_sent cd_time p s action rest Hw Hq Hok).
  eexists _, _. unfold transmissions. cbn [log _send_queue watching slack].
  rewrite !omap_app. cbn [omap list_omap transmission].
  rewrite app_nil_r. auto.
Qed.

Lemma transmissions_failed (cd_time : Z) (p : pace) (s : sender)
      (action : BotAction) (rest : list BotAction) :
  watching s = true -> _send_queue s = action :: rest -> send_ok p = false ->
  transmissions (_send_queue_watch_turn cd_time p s) = transmissions s /\
  _send_queue (_send_queue_watch_turn cd_time p s) = rest /\
  watching (_send_queue_watch_turn cd_time p s) = false /\
  slack (_send_queue_watch_turn cd_time p s) = slack s.
Proof.
  intros Hw Hq Hok.
  rewrite (watch_iteration_failed cd_time p s action rest Hw Hq Hok).
  unfold transmissions. cbn [log _send_queue watching slack].
  rewrite !omap_app. cbn [omap list_omap transmission].
  rewrite !app_nil_r. auto.
Qed.

(** What was sent, what was lost when the connection closed, and what
    still waits in the queue make up the accepted submissions, in order. *)
Lemma plays_fifo (cd_time : Z) (ms : list move) :
  forall (s : sender) (lost all : list BotAction),
    (watching s = true -> lost = []) ->
    sent_actions s ++ lost ++ _send_queue s = all ->
    exists lost' : list BotAction,
      (watching (plays cd_time s ms) = true -> lost' = []) /\
      sent_actions (plays cd_time s ms) ++ lost'
        ++ _send_queue (plays cd_time s ms)
      = all ++ submitted (slack s) ms.
Proof.
  induction ms as [|m ms IH]; intros s lost all Hlost Hall.
  - exists lost. simpl. rewrite app_nil_r. auto.
  - destruct m as [action|b|p]; simpl.
    + unfold _send. destruct (slack s) eqn:Hslack.
      * pose proof (IH s lost all Hlost Hall) as H.
        rewrite Hslack in H. exact H.
      * destruct (IH {| _send_queue := _send_queue s ++ [action];
                        _pre_send_time := _pre_send_time s; slack := false;
                        watching := watching s; now := now s; log := log s |}
                     lost (all ++ [action])) as (lost' & H1 & H2).
        { exact Hlost. }
        { unfold sent_actions, transmissions in *. simpl.
          rewrite <- Hall, <- !app_assoc. reflexivity. }
        exists lost'. split; [exact H1|].
        rewrite H2. simpl. rewrite <- app_assoc. reflexivity.
    + apply (IH (set_slack b s) lost all Hlost Hall).
    + destruct (watch_iteration_cases cd_time p s)
        as [-> | (action & rest & Hw & Hq)]; [apply (IH s lost all Hlost Hall)|].
      rewrite (Hlost Hw) in Hall. simpl in Hall.
      destruct (send_ok p) eqn:Hok.
      * destruct (transmissions_sent cd_time p s action rest Hw Hq Hok)
          as (t1 & t2 & Htr & Hq' & Hw' & Hsl').
        rewrite <- Hsl'.
        apply (IH _ [] all); [auto|].
        unfold sent_actions. rewrite Htr, Hq', map_app. simpl.
        rewrite <- Hall, Hq, <- app_assoc. reflexivity.
      * destruct (transmissions_failed cd_time p s action rest Hw Hq Hok)
          as (Htr & Hq' & Hw' & Hsl').
        rewrite <- Hsl'.
        apply (IH _ [action] all); [congruence|].
        unfold sent_actions. rewrite Htr, Hq'.
        rewrite <- Hall, Hq. reflexivity.
Qed.

(** A loop that is watching sends everything in its queue, given one
    successful turn per action. *)
Lemma watch_drains (cd_time : Z) (ps : list pace) :
  forall (s : sender),
    watching s = true ->
    length ps = length (_send_queue s) ->
    Forall (fun p => send_ok p = true) ps ->
    sent_actions (plays cd_time s (map Watch ps))
    = sent_actions s ++ _send_queue s /\
    _send_queue (plays cd_time s (map Watch ps)) = [].
Proof.
  induction ps as [|p ps IH]; intros s Hw Hlen Hok.
  - destruct (_send_queue s) eqn:Hq; [|discriminate]. simpl.
    rewrite app_nil_r. auto.
  - destruct (_send_queue s) as [|action rest] eqn:Hq; [discriminate|].
    apply Forall_cons in Hok as [Hp Hok]. simpl.
    destruct (transmissions_sent cd_time p s action rest Hw Hq Hp)
      as (t1 & t2 & Htr & Hq' & Hw' & _).
    destruct (IH (_send_queue_watch_turn cd_time p s) Hw') as [H1 H2];
      [rewrite Hq'; simpl in Hlen; lia | exact Hok |].
    rewrite H1, H2, Hq'. unfold sent_actions at 1. rewrite Htr, map_app.
    simpl. rewrite <- app_assoc. auto.
Qed.

(** C2. Whatever is submitted while the connector is ready and however
    the sender loop is paced, the actions accepted outside slack mode go
    out in the order of submission (what was sent is a prefix of them,
    and the rest is still queued unless the connection closed under the
    loop), a watching loop sends all of them, each transmission starts at
    least [cd_time] after the previous one was made, and
    [_pre_send_time] is the time at which the last transmission was
    made. *)
Theorem sender_fifo_and_cooldown (cd_time t0 : Z) (ms : list move) :
  Forall move_ok ms ->
  let s := plays cd_time (new_sender t0) ms in
  sent_actions s `prefix_of` submitted false ms /\
  (exists lost : list BotAction,
      (watching s = true -> lost = []) /\
      sent_actions s ++ lost ++ _send_queue s = submitted false ms) /\
  spaced cd_time (transmissions s) /\
  (forall x, last (transmissions s) = Some x -> _pre_send_time s = x.2) /\
  (forall ps : list pace,
      watching s = true ->
      length ps = length (_send_queue s) ->
      Forall (fun p => send_ok p = true) ps ->
      sent_actions (plays cd_time s (map Watch ps)) = submitted false ms).
Proof.
  intros Hms s.
  destruct (plays_fifo cd_time ms (new_sender t0) [] [] (fun _ => eq_refl) eq_refl)
    as (lost & Hlost & Hfifo).
  fold s in Hlost, Hfifo. simpl in Hfifo.
  assert (Hpaced : paced cd_time s).
  { apply plays_paced; [exact Hms|]. split; [exact I | discriminate]. }
  split; [exists (lost ++ _send_queue s); symmetry; exact Hfifo|].
  split; [exists lost; auto|].
  split; [apply Hpaced|]. split; [apply Hpaced|].
  intros ps Hw Hlen Hok.
  destruct (watch_drains cd_time ps s Hw Hlen Hok) as [Hsent _].
  rewrite Hsent, <- Hfifo, (Hlost Hw). reflexivity.
Qed.

Lemma sender_fifo_and_cooldown_witness :
  let a := {| action_id := 1; flatten := "a" |} in
  let b := {| action_id := 2; flatten := "b" |} in
  let p := {| idle := 1; hook_time := 2; oversleep := 0; send_time := 1;
              send_ok := true |} in
  spaced 20 (transmissions
               (plays 20 (new_sender 100) [Submit a; Submit b; Watch p; Watch p])).
Proof.
  intros a b p.
  refine (proj1 (proj2 (proj2
    (sender_fifo_and_cooldown 20 100 [Submit a; Submit b; Watch p; Watch p] _)))).
  repeat constructor; simpl; lia.
Defined.

(** C3. In one turn of the sender loop the pre-send hooks are awaited
    first, and only then is the cooldown [cd_time - (now -
    _pre_send_time)] computed from the clock and slept; so the time the
    hooks take counts as cooldown time already served when they are fast,
    and pushes the transmission beyond [cd_time] when they are slow. *)
Theorem presend_hook_before_cooldown
        (cd_time : Z) (p : pace) (s : sender)
        (action : BotAction) (rest : list BotAction) :
  watching s = true -> _send_queue s = action :: rest -> pace_ok p ->
  let t_got := now s + idle p in
  let t_hooked := t_got + hook_time p in
  let wait_time := cd_time - (t_hooked - _pre_send_time s) in
  let t_start := t_hooked + Z.max 0 wait_time + oversleep p in
  let t_done := t_start + send_time p in
  log (_send_queue_watch_turn cd_time p s)
  = log s ++ [Dequeued action t_got; PresendDone action t_hooked;
              CooledDown wait_time t_start;
              if send_ok p then Sent action t_start t_done
              else SendFailed action t_done] /\
  t_start - _pre_send_time s
  = Z.max cd_time (t_hooked - _pre_send_time s) + oversleep p /\
  (t_hooked - _pre_send_time s <= cd_time ->
   t_start - _pre_send_time s = cd_time + oversleep p) /\
  (cd_time < t_hooked - _pre_send_time s ->
   t_start - _pre_send_time s = t_hooked - _pre_send_time s + oversleep p /\
   cd_time < t_start - _pre_send_time s) /\
  (_pre_send_time s <= now s -> cd_time < hook_time p ->
   cd_time < t_start - _pre_send_time s).
Proof.
  intros Hw Hq (Hidle & Hhook & Hover & Hsend). cbv zeta.
  split.
  - destruct (send_ok p) eqn:Hok.
    + rewrite (watch_iteration_sent cd_time p s action rest Hw Hq Hok).
      cbn [log]. rewrite <- app_assoc. reflexivity.
    + rewrite (watch_iteration_failed cd_time p s action rest Hw Hq Hok).
      cbn [log]. rewrite <- app_assoc. reflexivity.
  - repeat split; intros; lia.
Qed.

Lemma presend_hook_before_cooldown_witness :
  let a := {| action_id := 1; flatten := "a" |} in
  let p := {| idle := 1; hook_time := 50; oversleep := 0; send_time := 1;
              send_ok := true |} in
  let s := {| _send_queue := [a]; _pre_send_time := 100; slack := false;
              watching := true; now := 100; log := [] |} in
  log (_send_queue_watch_turn 20 p s)
  = [Dequeued a 101; PresendDone a 151; CooledDown (-31) 151; Sent a 151 152].
Proof.
  intros a p s.
  refine (proj1 (presend_hook_before_cooldown 20 p s a [] _ _ _)).
  - reflexivity.
  - reflexivity.
  - unfold pace_ok. simpl. lia.
Defined.


End SenderProps.

Section ListenProps.
Import Py ForwardWsConn.

Variable build : string -> pyresult BotEvent.

(** What a turn does with a unit whose event cannot be built or
    classified. *)
Lemma listen_iteration_raised (raw_event : string) (e : pyexc) (l : listener) :
  raw_event <> EmptyString ->
  raised_by build raw_event = Some e ->
  _listen_turn build (Text raw_event) l
  = match e with
    | ConnectionClosed | CancelledError =>
        (add_records [DebugReceived raw_event] l, Some e)
    | _ =>
        (add_records [ErrorRaised; ErrorRawEvent raw_event; ErrorTraceback e;
                      ErrorLocals raw_event e]
           (add_records [DebugReceived raw_event] l), None)
    end.
Proof.
  intros Hraw Hraised. apply String.eqb_neq in Hraw.
  unfold _listen_turn, _listen_try, raised_by in *. rewrite Hraw.
  destruct (build raw_event) as [event|x].
  - destruct (is_resp_event event) as [resp|x]; [discriminate|].
    injection Hraised as ->. destruct e; reflexivity.
  - injection Hraised as ->. destruct e; reflexivity.
Qed.

(** An exception leaves a turn of the loop only if it is
    [ConnectionClosed] or [CancelledError]. *)
Lemma listen_iteration_exit (r : received) (l l' : listener) (e : pyexc) :
  _listen_turn build r l = (l', Some e) ->
  e = ConnectionClosed \/ e = CancelledError.
Proof.
  destruct r as [raw_event| |].
  - destruct (String.eqb_spec raw_event EmptyString) as [->|Hraw].
    + discriminate.
    + destruct (raised_by build raw_event) as [x|] eqn:Hraised.
      * rewrite (listen_iteration_raised raw_event x l Hraw Hraised).
        destruct x; intros [= _ <-]; auto.
      * unfold _listen_turn, _listen_try, raised_by in *.
        apply String.eqb_neq in Hraw. rewrite Hraw.
        destruct (build raw_event) as [event|x]; [|discriminate].
        destruct (is_resp_event event) as [resp|x]; discriminate.
  - intros [= _ <-]. auto.
  - intros [= _ <-]. auto.
Qed.

Lemma listen_loop_units (fuel : nat) (recv : nat -> received) :
  forall (k : nat) (l : listener),
    let '(l', exit, k') := _listen_loop build fuel recv k l in
    (k <= k' <= k + fuel)%nat /\
    (exit = None -> k' = (k + fuel)%nat) /\
    (forall e : pyexc, exit = Some e ->
       (e = ConnectionClosed \/ e = CancelledError) /\
       exists l0 : listener, (k < k')%nat /\
         snd (_listen_turn build (recv (k' - 1)%nat) l0) = Some e).
Proof.
  induction fuel as [|fuel IH]; intros k l; simpl.
  - split; [lia|]. split; [intros _; lia | discriminate].
  - destruct (_listen_turn build (recv k) l) as [l1 [e1|]] eqn:E1.
    + split; [lia|]. split; [discriminate|].
      intros e [= <-]. split; [eapply listen_iteration_exit, E1|].
      exists l. split; [lia|].
      replace (S k - 1)%nat with k by lia. rewrite E1. reflexivity.
    + specialize (IH (S k) l1).
      destruct (_listen_loop build fuel recv (S k) l1) as [[l' exit] k'].
      destruct IH as (Hk & Hnone & Hsome).
      split; [lia|]. split; [intros H; rewrite (Hnone H); lia|].
      intros e He. destruct (Hsome e He) as (Hexc & l0 & Hlt & Hit).
      split; [exact Hexc|]. exists l0. split; [lia | exact Hit].
Qed.

(** While the transport answers with text and neither
    [ConnectionClosed] nor [CancelledError] is raised on the way, the loop
    goes on, whatever else is raised. *)
Lemma listen_loop_goes_on (fuel : nat) (recv : nat -> received) :
  (forall i : nat, exists raw_event : string,
      recv i = Text raw_event /\
      raised_by build raw_event <> Some ConnectionClosed /\
      raised_by build raw_event <> Some CancelledError) ->
  forall (k : nat) (l : listener),
    (_listen_loop build fuel recv k l).1.2 = None /\
    (_listen_loop build fuel recv k l).2 = (k + fuel)%nat.
Proof.
  intros Hrecv. induction fuel as [|fuel IH]; intros k l; simpl.
  - split; [reflexivity | lia].
  - destruct (_listen_turn build (recv k) l) as [l1 [e1|]] eqn:E1.
    + exfalso. destruct (Hrecv k) as (raw_event & Hraw & Hc & Hx).
      rewrite Hraw in E1.
      destruct (String.eqb_spec raw_event EmptyString) as [->|Hne];
        [discriminate|].
      destruct (raised_by build raw_event) as [x|] eqn:Hraised.
      * rewrite (listen_iteration_raised raw_event x l Hne Hraised) in E1.
        destruct x; try discriminate; congruence.
      * unfold _listen_turn, _listen_try, raised_by in *.
        apply String.eqb_neq in Hne. rewrite Hne in E1.
        destruct (build raw_event) as [event|x]; [|discriminate].
        destruct (is_resp_event event) as [resp|x]; discriminate.
    + destruct (IH (S k) l1) as [H1 H2]. rewrite H1, H2. split; [reflexivity|lia].
Qed.

(** C6. In a turn of the receive loop an empty unit is skipped: nothing
    is dispatched, no error is logged, and the loop goes on.  When
    building the event from a non-empty unit, or classifying it, raises
    anything but [ConnectionClosed] (or the cancellation of the task), the
    error is logged together with the raw unit and the local variables,
    nothing is dispatched and the loop goes on to the next unit.  The loop
    is left only by [ConnectionClosed] or [CancelledError]. *)
Theorem listen_survives_bad_frames :
  (forall l : listener,
      _listen_turn build (Text EmptyString) l
      = (add_records [DebugReceived EmptyString] l, None)) /\
  (forall (raw_event : string) (e : pyexc) (l : listener),
      raw_event <> EmptyString ->
      raised_by build raw_event = Some e ->
      e <> ConnectionClosed -> e <> CancelledError ->
      _listen_turn build (Text raw_event) l
      = (add_records [ErrorRaised; ErrorRawEvent raw_event; ErrorTraceback e;
                      ErrorLocals raw_event e]
           (add_records [DebugReceived raw_event] l), None) /\
      tasks (fst (_listen_turn build (Text raw_event) l)) = tasks l) /\
  (forall (r : received) (l l' : listener) (e : pyexc),
      _listen_turn build r l = (l', Some e) ->
      e = ConnectionClosed \/ e = CancelledError) /\
  (forall (fuel : nat) (recv : nat -> received) (k : nat) (l : listener),
      let '(l', exit, k') := _listen_loop build fuel recv k l in
      (exit = None -> k' = (k + fuel)%nat) /\
      (forall e : pyexc, exit = Some e ->
         e = ConnectionClosed \/ e = CancelledError)) /\
  (forall (fuel : nat) (recv : nat -> received) (k : nat) (l : listener),
      (forall i : nat, exists raw_event : string,
          recv i = Text raw_event /\
          raised_by build raw_event <> Some ConnectionClosed /\
          raised_by build raw_event <> Some CancelledError) ->
      (_listen_loop build fuel recv k l).1.2 = None /\
      (_listen_loop build fuel recv k l).2 = (k + fuel)%nat).
Proof.
  split; [reflexivity|].
  split.
  { intros raw_event e l Hraw Hraised Hc Hx.
    assert (Hit : _listen_turn build (Text raw_event) l
                  = (add_records [ErrorRaised; ErrorRawEvent raw_event;
                                  ErrorTraceback e; ErrorLocals raw_event e]
                       (add_records [DebugReceived raw_event] l), None)).
    { rewrite (listen_iteration_raised raw_event e l Hraw Hraised).
      destruct e; try reflexivity; congruence. }
    split; [exact Hit|]. rewrite Hit. reflexivity. }
  split; [apply listen_iteration_exit|].
  split.
  { intros fuel recv k l.
    pose proof (listen_loop_units fuel recv k l) as H.
    destruct (_listen_loop build fuel recv k l) as [[l' exit] k'].
    destruct H as (_ & Hnone & Hsome).
    split; [exact Hnone|]. intros e He. apply (Hsome e He). }
  intros fuel recv k l Hrecv. apply listen_loop_goes_on, Hrecv.
Qed.

End ListenProps.

Lemma listen_survives_bad_frames_witness :
  ForwardWsConn._listen_turn
    (fun _ => Py.Raise Py.ValueError) (ForwardWsConn.Text "{oops")
    {| ForwardWsConn.records := []; ForwardWsConn.tasks := [] |}
  = ({| ForwardWsConn.records :=
          [ForwardWsConn.DebugReceived "{oops"; ForwardWsConn.ErrorRaised;
           ForwardWsConn.ErrorRawEvent "{oops";
           ForwardWsConn.ErrorTraceback Py.ValueError;
           ForwardWsConn.ErrorLocals "{oops" Py.ValueError];
        ForwardWsConn.tasks := [] |}, None).
Proof.
  refine (proj1 (proj1 (proj2 (listen_survives_bad_frames
            (fun _ => Py.Raise Py.ValueError)))
          "{oops"%string Py.ValueError
          {| ForwardWsConn.records := []; ForwardWsConn.tasks := [] |} _ _ _ _));
    [discriminate | reflexivity | discriminate | discriminate].
Defined.

(* ===================================================================== *)
(** * Part III: further properties of the embedded code                   *)
(* ===================================================================== *)

Section FlagableMore.
Import Py Flagable.

(** The store after a successful [mark], seen through its lookups. *)
Lemma mark_store (self self' : t) (ns name : string) (v : pyval) :
  mark self ns name v = Ok self' ->
  exists (store0 store' : gmap string (gmap string pyval))
         (flags : gmap string pyval),
    store0 = default ∅ (_flags_store self) /\
    flags = default ∅ (store0 !! ns) /\
    flags !! name = None /\
    _flags_store self' = Some store' /\
    store' !! ns = Some (<[name := v]> flags) /\
    forall ns', ns' <> ns -> store' !! ns' = store0 !! ns'.
Proof.
  unfold mark.
  set (store0 := match _flags_store self with None => ∅ | Some s => s end).
  set (store1 := match store0 !! ns with
                 | None => <[ns := ∅]> store0 | Some _ => store0 end).
  assert (Hflags : default ∅ (store1 !! ns) = default ∅ (store0 !! ns)).
  { unfold store1. destruct (store0 !! ns) eqn:E; [rewrite E; reflexivity|].
    rewrite lookup_insert_eq. reflexivity. }
  rewrite Hflags.
  destruct (default ∅ (store0 !! ns) !! name) eqn:Hn; [discriminate|].
  intros [= <-]. exists store0, (<[ns := <[name := v]> (default ∅ (store0 !! ns))]> store1),
    (default ∅ (store0 !! ns)).
  split; [unfold store0; destruct (_flags_store self); reflexivity|].
  split; [reflexivity|]. split; [exact Hn|]. split; [reflexivity|].
  split; [apply lookup_insert_eq|].
  intros ns' Hne. rewrite lookup_insert_ne by congruence.
  unfold store1. destruct (store0 !! ns); [reflexivity|].
  rewrite lookup_insert_ne by congruence. reflexivity.
Qed.

Lemma flag_check_store (self : t) (ns name : string) (val : pyval) :
  flag_check self ns name val
  = match default ∅ (_flags_store self) !! ns with
    | None => false
    | Some flags =>
        match flags !! name with
        | None => false
        | Some flag =>
            if is_Void flag then false
            else if is_None val then is_None flag else py_eq flag val
        end
    end.
Proof.
  unfold flag_check. destruct (_flags_store self) as [store|]; simpl.
  - destruct (store !! ns) as [flags|]; [|reflexivity].
    destruct (flags !! name); reflexivity.
  - rewrite lookup_empty. reflexivity.
Qed.

(** X1. A flag can be set once: after a successful [mark], marking the same
    name in the same namespace again, with any value, raises
    [TryFlagFailed]. *)
Theorem mark_twice_fails (self self' : t) (ns name : string) (v v' : pyval) :
  mark self ns name v = Ok self' ->
  mark self' ns name v' = Raise TryFlagFailed.
Proof.
  intros Hmark.
  destruct (mark_store _ _ _ _ _ Hmark)
    as (store0 & store' & flags & _ & _ & _ & Hs' & Hns & _).
  unfold mark. rewrite Hs', Hns. simpl. rewrite Hns. simpl.
  rewrite lookup_insert_eq. reflexivity.
Qed.

Lemma mark_twice_fails_witness :
  mark {| _flags_store := Some {[ "ns"%string := {[ "seen"%string := PyInt 1 ]} ]} |}
       "ns" "seen" PyNone
  = Raise TryFlagFailed.
Proof.
  refine (mark_twice_fails init _ "ns"%string "seen"%string (PyInt 1) PyNone _).
  vm_compute. reflexivity.
Defined.

(** X2. What [flag_check] answers for a flag that was just marked with
    [v]: [False] if [v] is the sentinel [Void]; otherwise, asked without a
    value (or for [None]) whether [v] is [None], and asked for a value
    whether [v == val].  So a flag marked with [Void] is never found, and
    checking for a value other than [None] answers what [==] answers. *)
Theorem flag_check_after_mark (self self' : t) (ns name : string) (v : pyval) :
  mark self ns name v = Ok self' ->
  (forall val : pyval,
      flag_check self' ns name val
      = if is_Void v then false
        else if is_None val then is_None v else py_eq v val) /\
  (v <> PyVoid ->
   flag_check self' ns name PyNone = is_None v /\
   forall val : pyval,
     val <> PyNone -> flag_check self' ns name val = py_eq v val) /\
  (v = PyVoid -> forall val : pyval, flag_check self' ns name val = false).
Proof.
  intros Hmark.
  destruct (mark_store _ _ _ _ _ Hmark)
    as (store0 & store' & flags & _ & _ & _ & Hs' & Hns & _).
  assert (Hall : forall val : pyval,
             flag_check self' ns name val
             = if is_Void v then false
               else if is_None val then is_None v else py_eq v val).
  { intros val. rewrite flag_check_store, Hs'. simpl. rewrite Hns.
    rewrite lookup_insert_eq. reflexivity. }
  split; [exact Hall|]. split.
  - intros Hv.
    assert (Hvoid : is_Void v = false) by (destruct v; try reflexivity; congruence).
    split.
    + rewrite Hall, Hvoid. reflexivity.
    + intros val Hval. rewrite Hall, Hvoid.
      destruct val; try reflexivity; congruence.
  - intros -> val. rewrite Hall. reflexivity.
Qed.

Lemma flag_check_after_mark_witness :
  flag_check
    {| _flags_store := Some {[ "ns"%string := {[ "lvl"%string := PyInt 3 ]} ]} |}
    "ns" "lvl" (PyInt 4) = py_eq (PyInt 3) (PyInt 4).
Proof.
  refine (proj2 (proj1 (proj2 (flag_check_after_mark init _ "ns"%string
                                 "lvl"%string (PyInt 3) _)) _) (PyInt 4) _).
  - vm_compute. reflexivity.
  - discriminate.
  - discriminate.
Defined.

(** X3. A successful [mark] does not change what [flag_check] answers for
    any other flag, and it never turns a [True] answer into [False]: a flag
    stays once it is there. *)
Theorem mark_keeps_flags (self self' : t) (ns name : string) (v : pyval) :
  mark self ns name v = Ok self' ->
  (forall (ns' name' : string) (val : pyval),
      (ns', name') <> (ns, name) ->
      flag_check self' ns' name' val = flag_check self ns' name' val) /\
  (forall (ns' name' : string) (val : pyval),
      flag_check self ns' name' val = true ->
      flag_check self' ns' name' val = true).
Proof.
  intros Hmark.
  destruct (mark_store _ _ _ _ _ Hmark)
    as (store0 & store' & flags & Hs0 & Hflags & Hfree & Hs' & Hns & Hother).
  assert (Hframe : forall (ns' name' : string) (val : pyval),
             (ns', name') <> (ns, name) ->
             flag_check self' ns' name' val = flag_check self ns' name' val).
  { intros ns' name' val Hne. rewrite !flag_check_store, Hs', <- Hs0. simpl.
    destruct (decide (ns' = ns)) as [->|Hns'].
    - assert (Hname : name' <> name) by congruence.
      rewrite Hns, lookup_insert_ne by congruence.
      rewrite Hflags. destruct (store0 !! ns) as [f|]; simpl; [reflexivity|].
      rewrite lookup_empty. reflexivity.
    - rewrite (Hother ns' Hns'). reflexivity. }
  split; [exact Hframe|].
  intros ns' name' val Htrue.
  destruct (decide ((ns', name') = (ns, name))) as [Heq|Hne].
  - exfalso. injection Heq as -> ->.
    rewrite flag_check_store, <- Hs0 in Htrue.
    rewrite Hflags in Hfree.
    destruct (store0 !! ns) as [f|]; [|discriminate].
    simpl in Hfree. rewrite Hfree in Htrue. discriminate.
  - rewrite (Hframe ns' name' val Hne). exact Htrue.
Qed.

Lemma mark_keeps_flags_witness :
  flag_check
    {| _flags_store :=
         Some {[ "ns"%string := {[ "a"%string := PyNone; "b"%string := PyInt 1 ]} ]} |}
    "ns" "a" PyNone = true.
Proof.
  refine (proj2 (mark_keeps_flags
                   {| _flags_store := Some {[ "ns"%string := {[ "a"%string := PyNone ]} ]} |}
                   _ "ns"%string "b"%string (PyInt 1) _)
                "ns"%string "a"%string PyNone _).
  - vm_compute. reflexivity.
  - vm_compute. reflexivity.
Defined.

End FlagableMore.

Section BotEventMore.
Import Py BotEvent.

(** X4. The per-parser argument store of an event: a fresh event has
    nothing stored ([_get_args] answers [-1]); [_get_args] returns what
    [_store_args] stored last for that parser, a second store replacing the
    first; and storing for one parser leaves every other parser's entry as
    it was. *)
Theorem store_args_get_args (A : Type) (self : t A) (p q : nat) (a b : A) :
  _get_args A (init A) p = None /\
  _get_args A (_store_args A self p a) p = Some a /\
  _get_args A (_store_args A (_store_args A self p a) p b) p = Some b /\
  (q <> p -> _get_args A (_store_args A self p a) q = _get_args A self q).
Proof.
  unfold _get_args, _store_args. simpl.
  split; [reflexivity|]. split; [apply lookup_insert_eq|].
  split; [apply lookup_insert_eq|].
  intros Hne. rewrite lookup_insert_ne by congruence.
  destruct (_args_map A self); [reflexivity | apply lookup_empty].
Qed.

Lemma store_args_get_args_witness :
  _get_args nat (_store_args nat (_store_args nat (init nat) 1 10) 2 20) 1 = Some 10.
Proof.
  assert (H12 : 1%nat <> 2%nat) by discriminate.
  rewrite (proj2 (proj2 (proj2 (store_args_get_args nat
            (_store_args nat (init nat) 1 10) 2 1 20 20))) H12).
  exact (proj1 (proj2 (store_args_get_args nat (init nat) 1 1 10 10))).
Defined.

End BotEventMore.

Section IdWorkerMore.
Import Py IdWorker.
#[local] Open Scope Z_scope.

(** X5. [IdWorker(datacenter_id, worker_id, sequence)] is accepted exactly
    when the worker id fits in 3 bits and the datacenter id in 5 bits;
    otherwise it raises [ValueError].  An accepted worker has not generated
    anything yet. *)
Theorem init_bounds (dc w s : Z) :
  ((0 <= w <= 7 /\ 0 <= dc <= 31) ->
   init dc w s = Ok {| worker_id := w; datacenter_id := dc; sequence := s;
                       last_timestamp := -1 |}) /\
  (~ (0 <= w <= 7 /\ 0 <= dc <= 31) -> init dc w s = Raise ValueError).
Proof.
  unfold init. change MAX_WORKER_ID with 7. change MAX_DATACENTER_ID with 31.
  destruct (Z.gtb_spec w 7), (Z.ltb_spec w 0), (Z.gtb_spec dc 31),
    (Z.ltb_spec dc 0); simpl; split; intros Hb; try reflexivity; lia.
Qed.

Lemma init_bounds_witness : init 32 1 0 = Raise ValueError.
Proof.
  refine (proj2 (init_bounds 32 1 0) _). lia.
Defined.

(** X6. [get_id] raises, and then with [ValueError], exactly when the clock
    reads less than the last recorded time stamp; it does so at once, after
    that one reading of the clock. *)
Theorem get_id_clock_rollback (clock : nat -> Z) (fuel : nat) (self : t)
        (tick : nat) :
  (clock tick < last_timestamp self ->
   get_id clock fuel self tick = Some (Raise ValueError, S tick)) /\
  (forall (e : pyexc) (tick' : nat),
      get_id clock fuel self tick = Some (Raise e, tick') ->
      clock tick < last_timestamp self /\ e = ValueError /\ tick' = S tick).
Proof.
  unfold get_id, __gen_timestamp. split.
  - intros Hlt. apply Z.ltb_lt in Hlt. rewrite Hlt. reflexivity.
  - intros e tick'.
    destruct (Z.ltb_spec (clock tick) (last_timestamp self)) as [Hlt|Hge].
    + intros [= <- <-]. auto.
    + destruct (clock tick =? last_timestamp self).
      * destruct (Z.land (sequence self + 1) SEQUENCE_MASK =? 0).
        -- destruct (__til_next_millis clock fuel (last_timestamp self) (S tick))
             as [[ts tk]|]; discriminate.
        -- discriminate.
      * discriminate.
Qed.

Lemma get_id_clock_rollback_witness :
  get_id (fun _ => 5) 0
         {| worker_id := 1; datacenter_id := 1; sequence := 0; last_timestamp := 9 |}
         3
  = Some (Raise ValueError, 4%nat).
Proof.
  refine (proj1 (get_id_clock_rollback (fun _ => 5) 0
            {| worker_id := 1; datacenter_id := 1; sequence := 0;
               last_timestamp := 9 |} 3) _).
  simpl. lia.
Defined.

Lemma shiftr_sum (a low n : Z) :
  0 <= n -> 0 <= low < 2 ^ n -> Z.shiftr (a * 2 ^ n + low) n = a.
Proof.
  intros Hn Hlow. rewrite Z.shiftr_div_pow2 by exact Hn.
  rewrite Z.div_add_l by lia. rewrite Z.div_small by lia. lia.
Qed.

(** X7. An id carries its four fields in disjoint bits: from an id
    assembled from in-range fields, the time stamp, the datacenter id, the
    worker id and the sequence number are read back unchanged.  Hence two
    ids are equal only if all four fields are, and workers that differ in
    datacenter or worker id never produce the same id. *)
Theorem new_id_fields_roundtrip (self : t) (timestamp : Z) :
  wf self -> 0 <= sequence self <= 4095 ->
  (timestamp_of (new_id self timestamp) = timestamp /\
   datacenter_of (new_id self timestamp) = datacenter_id self /\
   worker_of (new_id self timestamp) = worker_id self /\
   sequence_of (new_id self timestamp) = sequence self) /\
  (forall (other : t) (timestamp' : Z),
      wf other -> 0 <= sequence other <= 4095 ->
      new_id self timestamp = new_id other timestamp' ->
      timestamp = timestamp' /\ datacenter_id self = datacenter_id other /\
      worker_id self = worker_id other /\ sequence self = sequence other).
Proof.
  intros Hwf Hs.
  assert (Hfields : forall (s : t) (ts : Z),
             wf s -> 0 <= sequence s <= 4095 ->
             timestamp_of (new_id s ts) = ts /\
             datacenter_of (new_id s ts) = datacenter_id s /\
             worker_of (new_id s ts) = worker_id s /\
             sequence_of (new_id s ts) = sequence s).
  { intros s ts Hwfs Hss.
    destruct (new_id_fields s ts Hwfs Hss) as [Hts Hseq].
    split; [exact Hts|]. split; [|split; [|exact Hseq]].
    - unfold datacenter_of, DATACENTER_ID_SHIFT. simpl Z.add.
      rewrite new_id_sum by assumption. destruct Hwfs as [Hw Hd].
      replace ((ts - STARTEPOCH) * 2 ^ 20
               + (datacenter_id s * 2 ^ 15 + worker_id s * 2 ^ 12 + sequence s))
        with (((ts - STARTEPOCH) * 2 ^ 5 + datacenter_id s) * 2 ^ 15
              + (worker_id s * 2 ^ 12 + sequence s)) by lia.
      rewrite shiftr_sum by lia.
      change MAX_DATACENTER_ID with (Z.ones 5). rewrite Z.land_ones by lia.
      symmetry. apply Z.mod_unique_pos with (q := ts - STARTEPOCH); lia.
    - unfold worker_of, WOKER_ID_SHIFT.
      rewrite new_id_sum by assumption. destruct Hwfs as [Hw Hd].
      replace ((ts - STARTEPOCH) * 2 ^ 20
               + (datacenter_id s * 2 ^ 15 + worker_id s * 2 ^ 12 + sequence s))
        with (((ts - STARTEPOCH) * 2 ^ 8 + datacenter_id s * 2 ^ 3 + worker_id s)
              * 2 ^ 12 + sequence s) by lia.
      rewrite shiftr_sum by lia.
      change MAX_WORKER_ID with (Z.ones 3). rewrite Z.land_ones by lia.
      symmetry.
      apply Z.mod_unique_pos
        with (q := (ts - STARTEPOCH) * 2 ^ 5 + datacenter_id s); lia. }
  split; [apply Hfields; assumption|].
  intros other timestamp' Hwf' Hs' Heq.
  destruct (Hfields self timestamp Hwf Hs) as (H1 & H2 & H3 & H4).
  destruct (Hfields other timestamp' Hwf' Hs') as (H1' & H2' & H3' & H4').
  rewrite Heq in H1, H2, H3, H4. repeat split; congruence.
Qed.

Lemma new_id_fields_roundtrip_witness :
  datacenter_of 696798884659236869 = 1 /\ worker_of 696798884659236869 = 1.
Proof.
  pose proof (proj1 (new_id_fields_roundtrip
    {| worker_id := 1; datacenter_id := 1; sequence := 5; last_timestamp := 0 |}
    1729500000000 ltac:(unfold wf; simpl; lia) ltac:(simpl; lia))) as H.
  change (new_id _ _) with 696798884659236869 in H.
  simpl in H. tauto.
Defined.

(** X8. Ids fit in 63 bits for a long time: a call that reads the clock
    between the epoch and 2^43 ms after it (some 278 years) returns a
    non-negative id below 2^63. *)
Theorem get_id_fits_63_bits (clock : nat -> Z) (fuel : nat) (self : t)
        (tick : nat) (id : Z) (self' : t) (tick' : nat) :
  wf self ->
  (forall k : nat, STARTEPOCH <= clock k < STARTEPOCH + 2 ^ 43) ->
  get_id clock fuel self tick = Some (Ok (id, self'), tick') ->
  0 <= id < 2 ^ 63.
Proof.
  intros Hwf Hclock Hget.
  apply get_id_Ok in Hget as (Hw & Hd & -> & Hs' & (j & _ & Hj) & _).
  assert (Hwf' : wf self') by (unfold wf in *; rewrite Hw, Hd; exact Hwf).
  rewrite new_id_sum by assumption. rewrite Hj.
  specialize (Hclock j). destruct Hwf' as [Hw' Hd'].
  change (2 ^ 63) with (2 ^ 43 * 2 ^ 20).
  nia.
Qed.

Lemma get_id_fits_63_bits_witness :
  0 <= 696798884659204096 < 2 ^ 63.
Proof.
  refine (get_id_fits_63_bits (fun _ => 1729500000000) 0
            {| worker_id := 1; datacenter_id := 0; sequence := 7;
               last_timestamp := 17 |} 0 _
            {| worker_id := 1; datacenter_id := 0; sequence := 0;
               last_timestamp := 1729500000000 |} 1 _ _ _).
  - unfold wf. simpl. lia.
  - intros _. unfold STARTEPOCH. lia.
  - reflexivity.
Defined.

End IdWorkerMore.

Section TwinEventMore.
Import TwinEvent.

Lemma lookup_Event_set_ne (x c : nat) (h : heap) :
  x <> c -> Event_set x h !! c = h !! c.
Proof. intros Hne. unfold Event_set. apply list_lookup_alter_ne, Hne. Qed.

Lemma lookup_Event_clear_ne (x c : nat) (h : heap) :
  x <> c -> Event_clear x h !! c = h !! c.
Proof. intros Hne. unfold Event_clear. apply list_lookup_alter_ne, Hne. Qed.

Lemma Event_set_set (x : nat) (h : heap) :
  Event_set x (Event_set x h) = Event_set x h.
Proof.
  unfold Event_set. rewrite list_alter_alter_eq.
  apply list_alter_ext; [|reflexivity]. intros o _. reflexivity.
Qed.

Lemma Event_clear_clear (x : nat) (h : heap) :
  Event_clear x (Event_clear x h) = Event_clear x h.
Proof.
  unfold Event_clear. rewrite list_alter_alter_eq.
  apply list_alter_ext; [|reflexivity]. intros o _. reflexivity.
Qed.

Lemma Event_set_clear_commute (x y : nat) (h : heap) :
  x <> y -> Event_set x (Event_clear y h) = Event_clear y (Event_set x h).
Proof. intros Hne. unfold Event_set, Event_clear. apply list_alter_alter_ne, Hne. Qed.

Lemma set_unfold_twins (a b : nat) (h : heap) :
  twins a b h -> set a h = Event_clear b (Event_set a h).
Proof.
  intros (_ & Ha & _). unfold set. rewrite twin_of_Event_set, Ha. reflexivity.
Qed.

Lemma clear_unfold_twins (a b : nat) (h : heap) :
  twins a b h -> clear a h = Event_set b (Event_clear a h).
Proof.
  intros (_ & Ha & _). unfold clear. rewrite twin_of_Event_clear, Ha. reflexivity.
Qed.

(** X9. For a bound pair, setting one event is the same as clearing the
    other, and repeating a call changes nothing more: [a.set()] leaves the
    same heap as [b.clear()], and [a.set(); a.set()] the same as
    [a.set()] (likewise for [clear]). *)
Theorem twin_set_is_partner_clear (a b : nat) (h : heap) :
  twins a b h ->
  set a h = clear b h /\
  clear a h = set b h /\
  set a (set a h) = set a h /\
  clear a (clear a h) = clear a h.
Proof.
  intros Ht. pose proof (twins_sym _ _ _ Ht) as Ht'.
  assert (Hab : a <> b) by apply Ht.
  assert (Hs : set a h = clear b h).
  { rewrite (set_unfold_twins a b h Ht), (clear_unfold_twins b a h Ht').
    symmetry. apply Event_set_clear_commute, Hab. }
  assert (Hc : clear a h = set b h).
  { rewrite (clear_unfold_twins a b h Ht), (set_unfold_twins b a h Ht').
    apply Event_set_clear_commute. congruence. }
  split; [exact Hs|]. split; [exact Hc|]. split.
  - destruct (set_twins a b h Ht) as (Ht1 & _).
    rewrite (set_unfold_twins a b _ Ht1), (set_unfold_twins a b h Ht).
    rewrite (Event_set_clear_commute a b) by exact Hab.
    rewrite Event_clear_clear, Event_set_set. reflexivity.
  - destruct (clear_twins a b h Ht) as (Ht1 & _).
    rewrite (clear_unfold_twins a b _ Ht1), (clear_unfold_twins a b h Ht).
    rewrite <- (Event_set_clear_commute b a) by congruence.
    rewrite Event_set_set, Event_clear_clear. reflexivity.
Qed.

Lemma twin_set_is_partner_clear_witness :
  let h := [ {| _value := false; _twin := Some 1%nat |};
             {| _value := true; _twin := Some 0%nat |} ] in
  set 0 h = clear 1 h.
Proof.
  intros h. refine (proj1 (twin_set_is_partner_clear 0 1 h _)).
  unfold twins, twin_of, is_set. simpl. auto.
Defined.

Lemma do_call_frame (a b c : nat) (k : call) (h : heap) :
  twins a b h -> c <> a -> c <> b -> do_call a b k h !! c = h !! c.
Proof.
  intros Ht Hca Hcb. pose proof (twins_sym _ _ _ Ht) as Ht'.
  destruct k as [[|]|[|]]; simpl.
  - rewrite (set_unfold_twins a b h Ht).
    rewrite lookup_Event_clear_ne, lookup_Event_set_ne by congruence. reflexivity.
  - rewrite (set_unfold_twins b a h Ht').
    rewrite lookup_Event_clear_ne, lookup_Event_set_ne by congruence. reflexivity.
  - rewrite (clear_unfold_twins a b h Ht).
    rewrite lookup_Event_set_ne, lookup_Event_clear_ne by congruence. reflexivity.
  - rewrite (clear_unfold_twins b a h Ht').
    rewrite lookup_Event_set_ne, lookup_Event_clear_ne by congruence. reflexivity.
Qed.

Lemma do_calls_frame (a b c : nat) (ks : list call) :
  forall h : heap,
    twins a b h -> c <> a -> c <> b -> do_calls a b ks h !! c = h !! c.
Proof.
  induction ks as [|k ks IH]; intros h Ht Hca Hcb; simpl; [reflexivity|].
  rewrite IH by (try apply do_call_twins; assumption).
  apply do_call_frame; assumption.
Qed.

Lemma get_twin_event_frame (h0 : heap) (c : nat) :
  c < length h0 ->
  let '(a, b, h) := get_twin_event h0 in
  a = length h0 /\ b = S (length h0) /\ h !! c = h0 !! c.
Proof.
  intros Hc. unfold get_twin_event, new. cbv zeta.
  rewrite length_app. simpl length.
  split; [reflexivity|]. split; [lia|].
  unfold bind.
  assert (Hsets : forall x (g : heap), x <> c ->
            (if is_set (length h0 + 1) g then Event_clear x g else Event_set x g) !! c
            = g !! c).
  { intros x g Hx. destruct (is_set _ g);
      [apply lookup_Event_clear_ne | apply lookup_Event_set_ne]; exact Hx. }
  assert (Hsets' : forall x (g : heap), x <> c ->
            (if is_set (length h0) g then Event_clear x g else Event_set x g) !! c
            = g !! c).
  { intros x g Hx. destruct (is_set _ g);
      [apply lookup_Event_clear_ne | apply lookup_Event_set_ne]; exact Hx. }
  rewrite Hsets by lia. rewrite list_lookup_alter_ne by lia.
  rewrite Hsets' by lia. rewrite list_lookup_alter_ne by lia.
  rewrite !lookup_app_l by (rewrite ?length_app; simpl; lia). reflexivity.
Qed.

(** X10. A pair keeps to itself: creating a pair with [get_twin_event] and
    calling [set]/[clear] on its members, in any order, leaves every event
    that existed before exactly as it was (its value and its twin). *)
Theorem twin_pair_leaves_others (h0 : heap) (ks : list call) (c : nat) :
  c < length h0 ->
  let '(a, b, h) := get_twin_event h0 in
  do_calls a b ks h !! c = h0 !! c.
Proof.
  intros Hc.
  pose proof (get_twin_event_frame h0 c Hc) as Hf.
  pose proof (get_twin_event_twins h0) as Ht.
  destruct (get_twin_event h0) as [[a b] h].
  destruct Hf as (-> & -> & Hh). destruct Ht as (Ht & _).
  rewrite do_calls_frame by (try exact Ht; lia). exact Hh.
Qed.

Lemma twin_pair_leaves_others_witness :
  let h0 := [ {| _value := true; _twin := None |} ] in
  let '(a, b, h) := get_twin_event h0 in
  do_calls a b [CallSet true; CallClear false; CallSet false] h !! 0%nat
  = Some {| _value := true; _twin := None |}.
Proof.
  intros h0.
  refine (twin_pair_leaves_others h0 [CallSet true; CallClear false; CallSet false]
                                  0 _).
  simpl. lia.
Defined.

End TwinEventMore.

Section CooldownMore.
Import Py Cooldown.
#[local] Open Scope Z_scope.

Variable T : Type.
Variable busy_callback : called T.
Variable cd_callback : option (Z -> called T).
Variable interval : Z.
Variable func : pyresult T.

(** X11. A call of a cooled-down function runs the wrapped function exactly
    when it finds the lock free and either more than [interval] has passed
    since the last completed run or no [cd_callback] was given; a call that
    finds the lock taken gets the outcome of [busy_callback] and changes
    nothing. *)
Theorem cooldown_runs_func_iff (now finished : Z) (g : guard) :
  let call := wrapped_func T busy_callback cd_callback interval func
                           now finished g in
  (In EvFunc call.2 <->
   locked g = false /\
   (interval < now - pre_finish_t g \/ cd_callback = None)) /\
  (locked g = true ->
   call = (await_callback T busy_callback, g, [EvBusyCallback])).
Proof.
  cbv zeta. unfold wrapped_func, run_func.
  destruct (locked g) eqn:Hl.
  - split; [|reflexivity]. simpl. split; [intros [H|[]]; discriminate|].
    intros [H _]. discriminate.
  - split; [|discriminate].
    destruct (Z.gtb_spec (now - pre_finish_t g) interval) as [Hgt|Hle].
    + destruct func; simpl; split; auto; intros _; (split; [reflexivity|]);
        left; lia.
    + destruct cd_callback as [cb|]; simpl.
      * split; [intros [H|[]]; discriminate|].
        intros [_ [H|H]]; [lia | discriminate].
      * destruct func; simpl; split; auto.
Qed.

(** The three ways a call can go. *)
Lemma wrapped_func_cases (now finished : Z) (g : guard) :
  let call := wrapped_func T busy_callback cd_callback interval func
                           now finished g in
  (locked g = true /\ call = (await_callback T busy_callback, g, [EvBusyCallback])) \/
  (exists (cb : Z -> called T) (r : Z),
      call = (await_callback T (cb r), g, [EvCdCallback r])) \/
  (locked g = false /\ exists trace : list event,
      In EvFunc trace /\
      call = (func,
              match func with
              | Ok _ => {| locked := false; pre_finish_t := finished |}
              | Raise _ => g
              end, trace)).
Proof.
  cbv zeta. unfold wrapped_func, run_func.
  destruct (locked g) eqn:Hl; [left; auto|].
  right.
  destruct (now - pre_finish_t g >? interval).
  - right. split; [reflexivity|]. exists [EvFunc].
    split; [simpl; auto|]. destruct func; reflexivity.
  - destruct cd_callback as [cb|].
    + left. eauto.
    + right. split; [reflexivity|]. eexists. split; [|destruct func; reflexivity].
      simpl. auto.
Qed.

(** X12. The cooldown starts only when the wrapped function has returned:
    a call moves [pre_finish_t] to the time at which the function returned
    normally, and leaves it alone when the function was not run or raised;
    so a failed run does not delay the next one. *)
Theorem cooldown_starts_on_return (now finished : Z) (g : guard) :
  let call := wrapped_func T busy_callback cd_callback interval func
                           now finished g in
  locked call.1.2 = locked g /\
  (In EvFunc call.2 -> (exists ret : T, func = Ok ret) ->
   pre_finish_t call.1.2 = finished) /\
  (~ In EvFunc call.2 -> call.1.2 = g) /\
  ((exists e : pyexc, func = Raise e) -> call.1.2 = g /\
   (In EvFunc call.2 -> call.1.1 = func)).
Proof.
  cbv zeta.
  destruct (wrapped_func_cases now finished g)
    as [[Hl ->] | [(cb & r & ->) | (Hl & trace & Hin & ->)]]; simpl.
  - split; [reflexivity|]. split; [intros [H|[]]; discriminate|].
    split; [reflexivity|]. intros _. split; [reflexivity|].
    intros [H|[]]; discriminate.
  - split; [reflexivity|]. split; [intros [H|[]]; discriminate|].
    split; [reflexivity|]. intros _. split; [reflexivity|].
    intros [H|[]]; discriminate.
  - split; [destruct func; simpl; congruence|].
    split; [intros _ [ret ->]; reflexivity|].
    split; [intros Hn; contradiction|].
    intros [e ->]. auto.
Qed.

(** X13. The window of the cooldown: the first call after the decorator was
    applied is never cooled down; and a call that arrives exactly
    [interval] after the last run returned is still cooled down, with
    nothing left to wait. *)
Theorem cooldown_window (t0 now finished : Z) (g : guard) :
  (t0 <= now ->
   (wrapped_func T busy_callback cd_callback interval func now finished
                 (init interval t0)).2 = [EvFunc]) /\
  (locked g = false -> now = pre_finish_t g + interval ->
   forall cb : Z -> called T,
     cd_callback = Some cb ->
     wrapped_func T busy_callback cd_callback interval func now finished g
     = (await_callback T (cb 0), g, [EvCdCallback 0])).
Proof.
  split.
  - intros Hnow. unfold wrapped_func, init, run_func. simpl.
    destruct (Z.gtb_spec (now - (t0 - interval - 1)) interval) as [_|Hle]; [|lia].
    destruct func; reflexivity.
  - intros Hfree -> cb ->. unfold wrapped_func. rewrite Hfree.
    destruct (Z.gtb_spec (pre_finish_t g + interval - pre_finish_t g) interval)
      as [Hgt|_]; [lia|].
    replace (interval - (pre_finish_t g + interval - pre_finish_t g)) with 0 by lia.
    reflexivity.
Qed.

End CooldownMore.

Section CooldownMoreWitnesses.
Import Py Cooldown.
#[local] Open Scope Z_scope.

Lemma cooldown_runs_func_iff_witness :
  (wrapped_func Z (Coroutine (Ok 0)) None 5 (Ok 7) 103 104
                {| locked := true; pre_finish_t := 100 |})
  = (Ok 0, {| locked := true; pre_finish_t := 100 |}, [EvBusyCallback]).
Proof.
  exact (proj2 (cooldown_runs_func_iff Z (Coroutine (Ok 0)) None 5 (Ok 7) 103 104
                  {| locked := true; pre_finish_t := 100 |}) eq_refl).
Defined.

Lemma cooldown_starts_on_return_witness :
  (wrapped_func Z (Coroutine (Ok 0)) None 5 (Raise ValueError) 103 104
                {| locked := false; pre_finish_t := 100 |}).1.2
  = {| locked := false; pre_finish_t := 100 |}.
Proof.
  refine (proj1 (proj2 (proj2 (proj2
    (cooldown_starts_on_return Z (Coroutine (Ok 0)) None 5 (Raise ValueError)
       103 104 {| locked := false; pre_finish_t := 100 |}))) _)).
  exists ValueError. reflexivity.
Defined.

Lemma cooldown_window_witness :
  (wrapped_func Z (Coroutine (Ok 0)) (Some (fun r => Coroutine (Ok r))) 5 (Ok 7)
                100 101 (init 5 100)).2 = [EvFunc].
Proof.
  refine (proj1 (cooldown_window Z (Coroutine (Ok 0))
                   (Some (fun r => Coroutine (Ok r))) 5 (Ok 7) 100 100 101
                   (init 5 100)) _).
  lia.
Defined.

End CooldownMoreWitnesses.

Section GuardsMore.
Import Py Guards.
#[local] Open Scope Z_scope.

Variable T : Type.
Variable callback : Cooldown.called T.

Lemma lock_step_inv (g : lock_guard) (ev : guard_event) :
  (lock_running g = if alock g then 1 else 0)%nat ->
  (lock_running (lock_step T callback g ev)
   = if alock (lock_step T callback g ev) then 1 else 0)%nat.
Proof.
  destruct g as [[|] n]; simpl; intros ->; destruct ev; reflexivity.
Qed.

(** X14. A function under [lock] never runs twice at the same time, and no
    call waits for the lock: however calls arrive and finish, at most one
    is running; a call that arrives while one is running gets the outcome
    of the callback at once and changes nothing, and a call that arrives
    while none is running starts to run. *)
Theorem lock_never_overlaps (evs : list guard_event) :
  let g := fold_left (lock_step T callback) evs (lock_init) in
  (lock_running g <= 1)%nat /\
  (lock_running g = 1%nat ->
   lock_enter T callback g = (g, Fallback (Cooldown.await_callback T callback))) /\
  (lock_running g = 0%nat ->
   lock_enter T callback g = ({| alock := true; lock_running := 1 |}, Runs)).
Proof.
  cbv zeta.
  assert (Hinv : forall g,
             (lock_running g = if alock g then 1 else 0)%nat ->
             (lock_running (fold_left (lock_step T callback) evs g)
              = if alock (fold_left (lock_step T callback) evs g) then 1 else 0)%nat).
  { induction evs as [|ev evs' IH]; intros g Hg; simpl; [exact Hg|].
    apply IH, lock_step_inv, Hg. }
  specialize (Hinv lock_init eq_refl).
  destruct (fold_left (lock_step T callback) evs lock_init) as [[|] n];
    simpl in *; subst n; unfold lock_enter; simpl.
  - split; [lia|]. split; [reflexivity | discriminate].
  - split; [lia|]. split; [discriminate | reflexivity].
Qed.

Lemma sem_step_inv (total : nat) (g : sem_guard) (ev : guard_event) :
  (_value g + sem_running g = total)%nat ->
  (_value (sem_step T callback g ev) + sem_running (sem_step T callback g ev)
   = total)%nat.
Proof.
  destruct g as [v n]; simpl; intros <-; destruct ev; simpl.
  - unfold sem_enter. simpl. destruct v; simpl; lia.
  - unfold sem_leave. simpl. destruct n; simpl; lia.
Qed.

(** X15. [semaphore] cannot be applied with a negative [value], its
    default [-1] included: [asyncio.Semaphore] raises [ValueError].  With
    [value >= 0], however calls arrive and finish, at most [value] calls of
    the function run at the same time, and a call that arrives when [value]
    are running gets the outcome of the callback and changes nothing. *)
Theorem semaphore_bounds_running (value : Z) (evs : list guard_event) :
  (value < 0 -> sem_init value = Raise ValueError) /\
  sem_init sem_default_value = Raise ValueError /\
  (0 <= value ->
   exists g0 : sem_guard,
     sem_init value = Ok g0 /\
     let g := fold_left (sem_step T callback) evs g0 in
     Z.of_nat (sem_running g) <= value /\
     Z.of_nat (_value g) + Z.of_nat (sem_running g) = value /\
     (Z.of_nat (sem_running g) = value ->
      sem_enter T callback g
      = (g, Fallback (Cooldown.await_callback T callback)))).
Proof.
  split; [|split; [reflexivity|]].
  - intros Hneg. unfold sem_init.
    destruct (Z.ltb_spec value 0); [reflexivity | lia].
  - intros Hpos. unfold sem_init.
    destruct (Z.ltb_spec value 0); [lia|].
    eexists. split; [reflexivity|]. cbv zeta.
    assert (Hinv : forall g,
               (_value g + sem_running g = Z.to_nat value)%nat ->
               (_value (fold_left (sem_step T callback) evs g)
                + sem_running (fold_left (sem_step T callback) evs g)
                = Z.to_nat value)%nat).
    { induction evs as [|ev evs' IH]; intros g Hg; simpl; [exact Hg|].
      apply IH, sem_step_inv, Hg. }
    specialize (Hinv {| _value := Z.to_nat value; sem_running := 0 |}
                     ltac:(simpl; lia)).
    destruct (fold_left (sem_step T callback) evs
                {| _value := Z.to_nat value; sem_running := 0 |}) as [v n].
    simpl in *. split; [lia|]. split; [lia|].
    intros Hfull. assert (v = O) by lia. subst v. reflexivity.
Qed.

End GuardsMore.

Section GuardsMoreWitnesses.
Import Py Guards.

Lemma lock_never_overlaps_witness :
  lock_enter nat (Cooldown.Coroutine (Ok 9%nat))
             (fold_left (lock_step nat (Cooldown.Coroutine (Ok 9%nat)))
                        [Arrive; Arrive; Finish; Arrive] (lock_init))
  = ({| alock := true; lock_running := 1 |}, Fallback (Ok 9%nat)).
Proof.
  refine (proj1 (proj2 (lock_never_overlaps nat (Cooldown.Coroutine (Ok 9%nat))
                          [Arrive; Arrive; Finish; Arrive])) _).
  reflexivity.
Defined.

Lemma semaphore_bounds_running_witness : sem_init (-3) = Raise ValueError.
Proof.
  refine (proj1 (semaphore_bounds_running nat (Cooldown.Coroutine (Ok 9%nat))
                   (-3) []) _).
  lia.
Defined.

End GuardsMoreWitnesses.

Section RWControllerMore.
Import Py RWController.
#[local] Open Scope Z_scope.

#[local] Ltac rw_cases :=
  repeat match goal with
         | |- context [match ?x with _ => _ end] => destruct x eqn:?; simpl in *
         | H : context [match ?x with _ => _ end] |- _ => destruct x eqn:?; simpl in *
         end;
  repeat match goal with
         | H : (_ =? _) = true |- _ => apply Z.eqb_eq in H
         | H : (_ =? _) = false |- _ => apply Z.eqb_neq in H
         end.

Lemma step_consistent (limit : option nat) (s : t) (l : step_label) :
  consistent limit s -> consistent limit (step s l).
Proof.
  destruct s as [ws rs rn lk rp re rr rl ww]. unfold consistent. simpl.
  intros (Hn & Hw & Hl & Hlim).
  destruct l; simpl; rw_cases; simpl; repeat split;
    try contradiction; try discriminate; try lia;
    simplify_eq; lia.
Qed.

Lemma steps_consistent (limit : option nat) (ls : list step_label) :
  forall s : t, consistent limit s -> consistent limit (steps s ls).
Proof.
  induction ls as [|l ls IH]; intros s Hs; simpl; [exact Hs|].
  apply IH, step_consistent, Hs.
Qed.

(** The limit that a controller really has. *)
Lemma init_consistent (read_limit : option Z) (s : t) :
  init read_limit = Ok s ->
  consistent (match read_limit with
              | Some n => if n =? 0 then None else Some (Z.to_nat n)
              | None => None
              end) s.
Proof.
  unfold init, consistent. destruct read_limit as [n|].
  - destruct (n =? 0); [intros [= <-]; simpl; repeat split; lia|].
    destruct (n <? 0); [discriminate|].
    intros [= <-]. simpl. repeat split; lia.
  - intros [= <-]. simpl. repeat split; lia.
Qed.

(** X16. Writers are alone: however the callers of [safe_read] and
    [safe_write] of a controller interleave, there is at most one writer
    inside [safe_write], and while there is one no reader is inside
    [safe_read]; while a reader is inside, no writer is. *)
Theorem rw_writer_exclusive (read_limit : option Z) (s0 : t)
        (ls : list step_label) :
  init read_limit = Ok s0 ->
  let s := steps s0 ls in
  (w_writing s <= 1)%nat /\
  (w_writing s = 1%nat -> (r_reading s + r_leaving s = 0)%nat) /\
  ((0 < r_reading s + r_leaving s)%nat -> w_writing s = 0%nat).
Proof.
  intros Hinit. cbv zeta.
  pose proof (steps_consistent _ ls s0 (init_consistent _ _ Hinit)) as Hc.
  destruct (steps s0 ls) as [ws rs rn lk rp re rr rl ww].
  unfold consistent in Hc. simpl in *.
  destruct Hc as (Hn & Hw & _ & _).
  destruct (Z.eqb_spec rn 0); lia.
Qed.

(** Readers can pile up when nothing limits them. *)
Lemma unlimited_readers (k : nat) :
  forall s : t,
    consistent None s -> read_num_lock s = false -> w_writing s = 0%nat ->
    r_permitted s = 0%nat ->
    let s' := steps s (concat (repeat [ReadPermit; ReadLock; ReadEnter] k)) in
    r_reading s' = (r_reading s + k)%nat.
Proof.
  induction k as [|k IH]; intros s Hc Hlk Hww Hrp; cbv zeta.
  - simpl. lia.
  - change (concat (repeat [ReadPermit; ReadLock; ReadEnter] (S k)))
      with ([ReadPermit; ReadLock; ReadEnter]
              ++ concat (repeat [ReadPermit; ReadLock; ReadEnter] k)).
    unfold steps. rewrite fold_left_app. fold (steps s [ReadPermit; ReadLock; ReadEnter]).
    set (s1 := steps s [ReadPermit; ReadLock; ReadEnter]).
    assert (H1 : consistent None s1 /\ read_num_lock s1 = false /\
                 w_writing s1 = 0%nat /\ r_permitted s1 = 0%nat /\
                 r_reading s1 = S (r_reading s)).
    { split; [apply steps_consistent, Hc|].
      unfold s1. destruct s as [ws rs rn lk rp re rr rl ww].
      unfold consistent in Hc. simpl in *. subst lk ww rp.
      destruct Hc as (Hn & Hw & Hl & Hlim).
      destruct rs; [contradiction|].
      assert (re = O) by lia. subst re. simpl.
      destruct (Z.eqb_spec rn 0) as [->|Hne]; simpl.
      - destruct ws; [lia|]. simpl. auto.
      - destruct ws; simpl; auto. }
    destruct H1 as (Hc1 & Hlk1 & Hww1 & Hrp1 & Hrr1).
    specialize (IH s1 Hc1 Hlk1 Hww1 Hrp1). cbv zeta in IH.
    unfold steps in IH. rewrite IH, Hrr1. lia.
Qed.

(** X17. The read limit: with [read_limit = n > 0], however the callers
    interleave, at most [n] readers are inside [safe_read]; a negative
    limit is refused with [ValueError]; and [read_limit = 0] is no limit
    at all, like [None]: any number of readers can then be inside
    together. *)
Theorem rw_read_limit (n : Z) (ls : list step_label) (k : nat) :
  (0 < n ->
   exists s0 : t,
     init (Some n) = Ok s0 /\
     Z.of_nat (r_reading (steps s0 ls) + r_leaving (steps s0 ls)) <= n) /\
  (n < 0 -> init (Some n) = Raise ValueError) /\
  (init (Some 0) = init None /\
   exists s0 : t,
     init (Some 0) = Ok s0 /\
     r_reading (steps s0 (concat (repeat [ReadPermit; ReadLock; ReadEnter] k))) = k).
Proof.
  split; [|split].
  - intros Hn.
    assert (Hinit : exists s0, init (Some n) = Ok s0).
    { unfold init. destruct (Z.eqb_spec n 0); [lia|].
      destruct (Z.ltb_spec n 0); [lia|]. eauto. }
    destruct Hinit as [s0 Hinit]. exists s0. split; [exact Hinit|].
    pose proof (steps_consistent _ ls s0 (init_consistent _ _ Hinit)) as Hc.
    destruct (Z.eqb_spec n 0); [lia|].
    destruct (steps s0 ls) as [ws rs rn lk rp re rr rl ww].
    unfold consistent in Hc. simpl in *.
    destruct Hc as (_ & _ & _ & Hlim).
    destruct rs; [|contradiction]. lia.
  - intros Hn. unfold init. destruct (Z.eqb_spec n 0); [lia|].
    destruct (Z.ltb_spec n 0); [reflexivity|lia].
  - split; [reflexivity|].
    eexists. split; [reflexivity|].
    rewrite unlimited_readers; try reflexivity.
    simpl. repeat split; lia.
Qed.

Lemma rw_writer_exclusive_witness :
  w_writing
    (steps {| write_semaphore := 1; read_semaphore := Some 2%nat; read_num := 0;
              read_num_lock := false; r_permitted := 0; r_entering := 0;
              r_reading := 0; r_leaving := 0; w_writing := 0 |}
           [ReadPermit; ReadLock; ReadEnter; WriteEnter]) = 0%nat.
Proof.
  refine (proj2 (proj2 (rw_writer_exclusive (Some 2) _
                          [ReadPermit; ReadLock; ReadEnter; WriteEnter] eq_refl)) _).
  simpl. lia.
Defined.

Lemma rw_read_limit_witness : init (Some (-2)) = Raise ValueError.
Proof.
  refine (proj1 (proj2 (rw_read_limit (-2) [] 0)) _). lia.
Defined.

End RWControllerMore.

Section ConnectorMore.
Import Py ForwardWsConn.
#[local] Open Scope Z_scope.

Lemma slept_failed_attempts (delay : Z) (n : nat) :
  slept (failed_attempts delay n) = Z.of_nat n * delay.
Proof.
  induction n as [|n IH]; [reflexivity|].
  cbn [failed_attempts slept]. rewrite IH. lia.
Qed.

(** X18. How long a connector waits before it gives up: built with
    [max_retry >= 0] and any [retry_delay], against an endpoint that never
    opens, [_run] has slept [(max_retry + 1) * max(0, retry_delay)] in all
    when it raises [BotConnectFailed]; a negative [retry_delay] counts as
    zero. *)
Theorem run_gives_up_after (opens : nat -> bool)
        (max_retry retry_delay cd_time : Z) (allow_reconnect : bool)
        (fuel : nat) :
  0 <= max_retry ->
  (forall k : nat, opens k = false) ->
  (Z.to_nat (max_retry + 1) < fuel)%nat ->
  let run := _run_connect opens
               (init max_retry retry_delay cd_time allow_reconnect) fuel in
  snd run = Some (Raise BotConnectFailed) /\
  slept (fst run) = (max_retry + 1) * Z.max 0 retry_delay.
Proof.
  intros Hmax Hfail Hfuel. cbv zeta. unfold _run_connect, make_iter.
  cbn [ForwardWsConn.max_retry ForwardWsConn.retry_delay init].
  destruct (Z.ltb_spec max_retry 0) as [Hneg|_]; [lia|].
  rewrite connect_loop_range_all_fail by auto.
  cbn [fst snd]. split; [reflexivity|].
  rewrite slept_failed_attempts.
  destruct (Z.gtb_spec retry_delay 0); lia.
Qed.

Lemma run_gives_up_after_witness :
  slept (fst (_run_connect (fun _ => false) (init 1 (-4) 1 false) 5)) = 0.
Proof.
  refine (proj2 (run_gives_up_after (fun _ => false) 1 (-4) 1 false 5 _ _ _)).
  - lia.
  - reflexivity.
  - simpl. lia.
Defined.

(** X19. What the loss of the transport leads to.  When [_listen] ends
    and no close was asked for: if reconnection is allowed, [_reconnect]
    clears the ready gate, completes the close future, and creates one new
    [_run] task, which starts a new connect cycle with a fresh close future
    once the old [_run] has torn its connection down; if it is not
    allowed, [_listen] closes the connector itself, and no [_run] task is
    created and the transport is not opened ever after. *)
Theorem on_transport_loss (s : life) (hs : list happening) :
  _client_close s = Some false ->
  phase s = Serving ->
  started s = spawned s ->
  (_allow_reconn s = true ->
   let s1 := fst (_listen_finally s) in
   snd (_listen_finally s) = None /\
   _conn_ready s1 = false /\ _client_close s1 = Some true /\
   _reconn_flag s1 = true /\ spawned s1 = S (spawned s) /\
   let s2 := steps s1 [RunFinishes; RunStarts] in
   phase s2 = Connecting /\ _client_close s2 = Some false /\
   teardowns s2 = S (teardowns s) /\ started s2 = spawned s2) /\
  (_allow_reconn s = false ->
   _listen_finally s = _close s /\
   let s2 := steps (fst (_listen_finally s)) hs in
   _client_close (fst (_listen_finally s)) = Some true /\
   spawned s2 = spawned s /\ connects s2 = connects s).
Proof.
  intros Hcc Hph Hst. split.
  - intros Hallow. cbv zeta.
    unfold _listen_finally, _reconnect. rewrite Hcc, Hallow. simpl.
    rewrite Hcc. simpl. unfold run_finishes, run_starts. simpl.
    rewrite Hph. simpl. rewrite Hst.
    assert (Hlt : (spawned s <? S (spawned s))%nat = true)
      by (apply Nat.ltb_lt; lia).
    rewrite Hlt. simpl. auto 10.
  - intros Hallow. cbv zeta.
    assert (Hlf : _listen_finally s = _close s).
    { unfold _listen_finally. rewrite Hcc, Hallow. reflexivity. }
    rewrite Hlf. split; [reflexivity|].
    unfold _close. rewrite Hcc. cbn [fst].
    set (s1 := with_client_close (Some true) (with_allow_reconn false s)).
    split; [reflexivity|].
    destruct (steps_no_reconnect hs s1 eq_refl) as (_ & Hsp & _).
    split; [exact Hsp|].
    apply (steps_no_connect hs s1 eq_refl).
    + simpl. rewrite Hph. discriminate.
    + exact Hst.
Qed.

Lemma on_transport_loss_witness :
  let s := {| _client_close := Some false; _conn_ready := true;
              _allow_reconn := true; _reconn_flag := false;
              phase := Serving; spawned := 1; started := 1;
              reconnects := 0; connects := 1; teardowns := 0 |} in
  spawned (fst (_listen_finally s)) = 2%nat.
Proof.
  intros s.
  refine (proj1 (proj2 (proj2 (proj2 (proj2
    (proj1 (on_transport_loss s [] _ _ _) _)))))); reflexivity.
Defined.

(** X20. A close can be lost: after [_reconnect], and until the new [_run]
    has started, the close future is the completed one of the old
    connection, so [_close] returns without doing anything; the new [_run]
    then starts its connect cycle as if no close had been asked for, with
    reconnection still allowed. *)
Theorem close_lost_before_restart (s : life) :
  _client_close s = Some false ->
  _allow_reconn s = true ->
  phase s = Serving ->
  started s = spawned s ->
  let s1 := fst (_listen_finally s) in
  _close s1 = (s1, None) /\
  steps s1 [Close; RunFinishes; RunStarts] = steps s1 [RunFinishes; RunStarts] /\
  let s2 := steps s1 [Close; RunFinishes; RunStarts] in
  _allow_reconn s2 = true /\ phase s2 = Connecting /\
  _client_close s2 = Some false.
Proof.
  intros Hcc Hallow Hph Hst. cbv zeta.
  unfold _listen_finally, _reconnect. rewrite Hcc, Hallow. simpl.
  rewrite Hcc. simpl. unfold _close. simpl.
  split; [reflexivity|]. split; [reflexivity|].
  unfold run_finishes, run_starts. simpl. rewrite Hph. simpl. rewrite Hst.
  assert (Hlt : (spawned s <? S (spawned s))%nat = true)
    by (apply Nat.ltb_lt; lia).
  rewrite Hlt. simpl. auto.
Qed.

Lemma close_lost_before_restart_witness :
  let s := {| _client_close := Some false; _conn_ready := true;
              _allow_reconn := true; _reconn_flag := false;
              phase := Serving; spawned := 1; started := 1;
              reconnects := 0; connects := 1; teardowns := 0 |} in
  _allow_reconn (steps (fst (_listen_finally s)) [Close; RunFinishes; RunStarts])
  = true.
Proof.
  intros s.
  refine (proj1 (proj2 (proj2 (close_lost_before_restart s _ _ _ _))));
    reflexivity.
Defined.

Lemma step_coherent (s : life) (h : happening) :
  coherent s -> coherent (step s h).
Proof.
  destruct s as [cc cr ar rf ph sp st rc cn td]. unfold coherent. simpl.
  intros (Hrf & Hsp & Hst & Htd). subst rf sp.
  destruct h as [| | |ok| |]; simpl;
    unfold _close, _listen_finally, _reconnect, run_starts, run_attempts,
      run_gives_up, run_finishes; simpl;
    destruct cc as [[|]|]; destruct ar; destruct ph; simpl;
    try destruct (Nat.ltb_spec st (S rc)); simpl;
    try destruct ok; simpl;
    repeat split; try reflexivity; lia.
Qed.

Lemma steps_coherent (hs : list happening) :
  forall s : life, coherent s -> coherent (steps s hs).
Proof.
  induction hs as [|h hs IH]; intros s Hs; simpl; [exact Hs|].
  apply IH, step_coherent, Hs.
Qed.

(** X21. Of a connector that was entered once, whatever happens to it
    afterwards: [_listen] announces [FIRST_CONNECTED] exactly as long as
    [_reconnect] has never been called, and [RECONNECTED] from then on;
    every call of [_reconnect] has created exactly one [_run] task; and
    the connection is torn down at most once per successful connect. *)
Theorem connector_bookkeeping (self : config) (hs : list happening) :
  let s := steps (__aenter__ (new_life self)) hs in
  (_listen_hook s = FIRST_CONNECTED <-> reconnects s = 0%nat) /\
  (_listen_hook s = RECONNECTED <-> (0 < reconnects s)%nat) /\
  spawned s = S (reconnects s) /\
  (started s <= spawned s)%nat /\
  (teardowns s <= connects s)%nat.
Proof.
  cbv zeta.
  assert (H0 : coherent (__aenter__ (new_life self))).
  { unfold coherent. simpl. repeat split; lia. }
  pose proof (steps_coherent hs _ H0) as (Hrf & Hsp & Hst & Htd).
  unfold _listen_hook. rewrite Hrf.
  destruct (Nat.ltb_spec 0 (reconnects (steps (__aenter__ (new_life self)) hs)));
    simpl; repeat split; try discriminate; try lia; auto.
Qed.

End ConnectorMore.

Section PipelineMore.
Import Py ForwardWsConn.
#[local] Open Scope Z_scope.

Lemma plays_not_watching (cd_time : Z) (ms : list move) :
  forall s : sender,
    watching s = false ->
    watching (plays cd_time s ms) = false /\
    log (plays cd_time s ms) = log s /\
    _pre_send_time (plays cd_time s ms) = _pre_send_time s /\
    _send_queue (plays cd_time s ms) = _send_queue s ++ submitted (slack s) ms.
Proof.
  induction ms as [|m ms IH]; intros s Hw; simpl.
  - rewrite app_nil_r. auto.
  - destruct m as [action|b|p]; simpl.
    + unfold _send. destruct (slack s) eqn:Hsl.
      * destruct (IH s Hw) as (H1 & H2 & H3 & H4). rewrite Hsl in H4. auto.
      * destruct (IH {| _send_queue := _send_queue s ++ [action];
                        _pre_send_time := _pre_send_time s; slack := false;
                        watching := watching s; now := now s; log := log s |} Hw)
          as (H1 & H2 & H3 & H4).
        simpl in *. rewrite H4, <- app_assoc. auto.
    + apply (IH (set_slack b s) Hw).
    + rewrite watch_iteration_blocked by auto. apply (IH s Hw).
Qed.

(** X22. A send that fails is not made up for: when the connection closes
    under [conn.send], the action being sent is taken from the queue but
    not transmitted, and the sender loop ends; from then on, whatever is
    submitted and however often the loop is asked to go on, nothing more is
    transmitted, [_pre_send_time] stays, and accepted submissions pile up
    in the queue. *)
Theorem failed_send_ends_sender (cd_time : Z) (p : pace) (s : sender)
        (action : BotAction) (rest : list BotAction) (ms : list move) :
  watching s = true -> _send_queue s = action :: rest -> send_ok p = false ->
  let s1 := _send_queue_watch_turn cd_time p s in
  transmissions s1 = transmissions s /\
  _send_queue s1 = rest /\
  watching s1 = false /\
  let s2 := plays cd_time s1 ms in
  transmissions s2 = transmissions s /\
  _pre_send_time s2 = _pre_send_time s /\
  _send_queue s2 = rest ++ submitted (slack s) ms.
Proof.
  intros Hw Hq Hok. cbv zeta.
  destruct (transmissions_failed cd_time p s action rest Hw Hq Hok)
    as (Htr & Hq1 & Hw1 & Hsl1).
  split; [exact Htr|]. split; [exact Hq1|]. split; [exact Hw1|].
  destruct (plays_not_watching cd_time ms _ Hw1) as (_ & Hlog & Hpre & Hqueue).
  split; [unfold transmissions in *; rewrite Hlog; exact Htr|].
  split.
  - rewrite Hpre, (watch_iteration_failed cd_time p s action rest Hw Hq Hok).
    reflexivity.
  - rewrite Hqueue, Hq1, Hsl1. reflexivity.
Qed.

Lemma failed_send_ends_sender_witness :
  let a := {| action_id := 1; flatten := "a" |} in
  let b := {| action_id := 2; flatten := "b" |} in
  let p := {| idle := 1; hook_time := 2; oversleep := 0; send_time := 1;
              send_ok := false |} in
  let s := {| _send_queue := [a]; _pre_send_time := 100; slack := false;
              watching := true; now := 100; log := [] |} in
  _send_queue (plays 20 (_send_queue_watch_turn 20 p s) [Submit b; Watch p]) = [b].
Proof.
  intros a b p s.
  refine (proj2 (proj2 (proj2 (proj2 (proj2
    (failed_send_ends_sender 20 p s a [] [Submit b; Watch p] _ _ _))))));
    reflexivity.
Defined.

Variable build : string -> pyresult BotEvent.

Lemma listen_turn_issues (raw_event : string) (l : listener) :
  raised_by build raw_event <> Some ConnectionClosed ->
  raised_by build raw_event <> Some CancelledError ->
  exists l' : listener,
    _listen_turn build (Text raw_event) l = (l', None) /\
    tasks l' = tasks l ++ match issued build raw_event with
                          | Some t => [t]
                          | None => []
                          end.
Proof.
  intros Hc Hx. unfold issued.
  destruct (String.eqb_spec raw_event EmptyString) as [->|Hne].
  - eexists. split; [reflexivity|]. simpl. rewrite app_nil_r. reflexivity.
  - destruct (raised_by build raw_event) as [e|] eqn:Hraised.
    + rewrite (listen_iteration_raised build raw_event e l Hne Hraised).
      unfold raised_by in Hraised.
      destruct (build raw_event) as [event|x].
      * destruct (is_resp_event event) as [resp|x]; [discriminate|].
        destruct e; try congruence;
          (eexists; split; [reflexivity|]; simpl; rewrite app_nil_r; reflexivity).
      * destruct e; try congruence;
          (eexists; split; [reflexivity|]; simpl; rewrite app_nil_r; reflexivity).
    + unfold _listen_turn, _listen_try, raised_by in *.
      apply String.eqb_neq in Hne. rewrite Hne.
      destruct (build raw_event) as [event|x]; [|discriminate].
      destruct (is_resp_event event) as [resp|x]; [|discriminate].
      eexists. split; [reflexivity|]. reflexivity.
Qed.

(** X23. Events are issued in the order in which they are received: while
    the transport delivers the units [units] and nothing closes or cancels
    the loop, [_listen] reads them all and creates exactly one task for each
    unit from which an event can be built and classified, in the order of
    the units, for the response dispatcher if the event is a response and
    for the common dispatcher otherwise; empty and malformed units create
    none. *)
Theorem listen_issues_in_order (units : list string) :
  forall (recv : nat -> received) (k : nat) (l : listener),
    (forall (i : nat) (raw_event : string),
        units !! i = Some raw_event ->
        recv (k + i)%nat = Text raw_event /\
        raised_by build raw_event <> Some ConnectionClosed /\
        raised_by build raw_event <> Some CancelledError) ->
    exists l' : listener,
      _listen_loop build (length units) recv k l
      = (l', None, (k + length units)%nat) /\
      tasks l' = tasks l ++ omap (issued build) units.
Proof.
  induction units as [|raw_event units IH]; intros recv k l Hrecv.
  - exists l. simpl. rewrite app_nil_r, Nat.add_0_r. auto.
  - destruct (Hrecv O raw_event eq_refl) as (Hr & Hc & Hx).
    rewrite Nat.add_0_r in Hr.
    destruct (listen_turn_issues raw_event l Hc Hx) as (l1 & Hturn & Htasks).
    destruct (IH recv (S k) l1) as (l' & Hloop & Htasks').
    { intros i raw Hi. replace (S k + i)%nat with (k + S i)%nat by lia.
      apply Hrecv. exact Hi. }
    exists l'. simpl. rewrite Hr, Hturn, Hloop.
    split; [f_equal; lia|].
    rewrite Htasks', Htasks, <- app_assoc.
    destruct (issued build raw_event); reflexivity.
Qed.

End PipelineMore.

Lemma listen_issues_in_order_witness :
  let ev := {| ForwardWsConn.event_raw := "r";
               ForwardWsConn.event_type := Py.Ok "response"%string |} in
  let build := fun raw : string =>
                 if String.eqb raw "r" then Py.Ok ev else Py.Raise Py.ValueError in
  exists l' : ForwardWsConn.listener,
    ForwardWsConn._listen_loop build 3
      (fun i => ForwardWsConn.Text (nth i ["x"; "r"; "y"]%string "r"%string)) 0
      {| ForwardWsConn.records := []; ForwardWsConn.tasks := [] |}
    = (l', None, 3%nat) /\
    ForwardWsConn.tasks l' = [ForwardWsConn.Respond ev].
Proof.
  intros ev build.
  refine (listen_issues_in_order build ["x"; "r"; "y"]%string _ 0 _ _).
  intros [|[|[|i]]] raw Hi; simpl in Hi; try discriminate;
    injection Hi as <-; (split; [reflexivity|]); split; discriminate.
Defined.


Section SchedulingMore.
Import Py Scheduling.
#[local] Open Scope Z_scope.

(** X24. Nothing scheduled for a time stamp runs before it: with a clock
    that does not go back, the callback of [call_at] runs, and the
    coroutine of [async_at] is awaited, no earlier than [timestamp], and at
    once if [timestamp] is already past.  The future of [async_at] gets the
    coroutine's return value, and only that: it is never completed when the
    task is cancelled while it sleeps (the coroutine is then closed without
    being awaited) or when the coroutine raises. *)
Theorem scheduled_not_early (T : Type) (callback : pyresult T)
        (timestamp t1 t2 t_task oversleep : Z) (cancelled : bool) :
  t1 <= t2 -> t2 <= t_task -> 0 <= oversleep ->
  let r := async_at T callback timestamp t1 t2 t_task oversleep cancelled in
  timestamp <= earliest t2 (call_at timestamp t1 t2) /\
  (timestamp <= t1 -> call_at timestamp t1 t2 = call_soon) /\
  (forall t : Z, awaited_at T r = Some t -> timestamp <= t /\ t_task <= t) /\
  (timestamp <= t1 -> cancelled = false ->
   awaited_at T r = Some (t_task + oversleep)) /\
  (forall res : T, fut T r = Some res <-> cancelled = false /\ callback = Ok res) /\
  (cancelled = true -> awaited_at T r = None /\ closed T r = true).
Proof.
  intros H12 H2t Hover. cbv zeta. unfold async_at, call_at, async_later.
  destruct (Z.leb_spec timestamp t1) as [Hpast|Hfuture];
    destruct cancelled; destruct callback as [res0|e]; simpl;
    repeat split; intros;
    repeat match goal with H : _ /\ _ |- _ => destruct H end;
    simplify_eq; try lia; try reflexivity; try (f_equal; lia).
Qed.

Lemma scheduled_not_early_witness :
  awaited_at nat (async_at nat (Ok 3%nat) 5 10 11 12 1 false) = Some 13.
Proof.
  refine (proj1 (proj2 (proj2 (proj2
    (scheduled_not_early nat (Ok 3%nat) 5 10 11 12 1 false _ _ _)))) _ eq_refl);
    lia.
Defined.

End SchedulingMore.
